(** * Translation contribution statistics job

    A shallow embedding of
    [core/jobs/batch_jobs/suggestion_stats_computation_jobs.py]:
    the Beam combiner [CombineStats] and the job
    [GenerateTranslationContributionStatsJob].

    Conventions.
    - Python [int] is [Z]; [int(b)] for a boolean [b] is [Z.b2z b].
    - Python [str] is [string]; a character is a code point below 256.
    - A raised exception is the [Raise] outcome of the [res] monad; the
      exception aborts the pipeline stage that evaluates it.
    - A [PCollection] is a list; grouping keeps keys in order of first
      occurrence and values in input order. *)

From Stdlib Require Import ZArith Ascii String List Permutation Lia.
From stdpp Require Import base decidable option list countable gmap sets
  strings pretty sorting.

#[local] Open Scope string_scope.
#[local] Open Scope Z_scope.
#[local] Set Default Proof Using "Type".

(** ** Exceptions *)

Inductive exn : Type :=
| ValueError
| IndexError.

Inductive res (A : Type) : Type :=
| Ok (a : A)
| Raise (e : exn).
Arguments Ok {A} a.
Arguments Raise {A} e.

#[global] Instance res_ret : MRet res := fun A a => Ok a.
#[global] Instance res_bind : MBind res := fun A B f m =>
  match m with
  | Ok a => f a
  | Raise e => Raise e
  end.

Section ResList.
Context {A B : Type}.

(** [[f(x) for x in l]] where [f] may raise: the first exception
    wins. *)
Definition res_map (f : A → res B) : list A → res (list B) :=
  fix go (l : list A) : res (list B) :=
    match l with
    | [] => Ok []
    | x :: l' => y ← f x; ys ← go l'; Ok (y :: ys)
    end.

(** [functools.reduce(f, l, a)] where [f] may raise. *)
Fixpoint res_fold (f : B → A → res B) (a : B) (l : list A) : res B :=
  match l with
  | [] => Ok a
  | x :: l' => a' ← f a x; res_fold f a' l'
  end.
End ResList.

(** ** Calendar dates ([datetime.date]) *)

Record date : Type := Date { year : Z; month : Z; day : Z }.

#[global] Instance date_eq_dec : EqDecision date.
Proof. solve_decision. Defined.

#[global] Instance date_countable : Countable date.
Proof.
  refine (inj_countable' (fun d => (year d, month d, day d))
            (fun t => Date t.1.1 t.1.2 t.2) _).
  by intros [].
Defined.

Definition is_leap (y : Z) : bool :=
  (y mod 4 =? 0) && (negb (y mod 100 =? 0) || (y mod 400 =? 0)).

Definition days_in_month (y m : Z) : Z :=
  if m =? 2 then (if is_leap y then 29 else 28)
  else if (m =? 4) || (m =? 6) || (m =? 9) || (m =? 11) then 30
  else 31.

(** The check the [date] constructor performs on its arguments. *)
Definition date_fields_ok (y m d : Z) : bool :=
  (1 <=? y) && (y <=? 9999) && (1 <=? m) && (m <=? 12) &&
  (1 <=? d) && (d <=? days_in_month y m).

Definition valid_date (d : date) : Prop :=
  date_fields_ok (year d) (month d) (day d) = true.

Definition new_date (y m d : Z) : res date :=
  if date_fields_ok y m d then Ok (Date y m d) else Raise ValueError.

(** *** Decimal digits *)

Definition code (c : ascii) : Z := Z.of_N (N_of_ascii c).

Definition in_range (lo hi : ascii) (c : ascii) : bool :=
  (code lo <=? code c) && (code c <=? code hi).

(** [\d] on code points below 256. *)
Definition is_digit (c : ascii) : bool := in_range "0" "9" c.

Definition digit_value (c : ascii) : Z := code c - 48.

Definition digit_char (n : Z) : ascii := ascii_of_N (Z.to_N (48 + n)).

(** *** [date.isoformat()]: ['%04d-%02d-%02d' % (year, month, day)].
    A [date] object has [1 <= year <= 9999], so the year prints as
    exactly four digits and month and day as two. *)
Definition isoformat (d : date) : string :=
  let y := year d in let m := month d in let dd := day d in
  String (digit_char (y / 1000 mod 10))
 (String (digit_char (y / 100 mod 10))
 (String (digit_char (y / 10 mod 10))
 (String (digit_char (y mod 10))
 (String "-"
 (String (digit_char (m / 10 mod 10))
 (String (digit_char (m mod 10))
 (String "-"
 (String (digit_char (dd / 10 mod 10))
 (String (digit_char (dd mod 10)) EmptyString))))))))).

(** *** [datetime.datetime.strptime(s, '%Y-%m-%d').date()]

    [_strptime] compiles the format to the regular expression
    [(\d\d\d\d)-(1[0-2]|0[1-9]|[1-9])-(3[01]|[12]\d|0[1-9]|[1-9]| [1-9])],
    matches it at the start of the string, raises [ValueError] when it
    does not match or when text remains after the match, and builds the
    date from the three numbers (the constructor raises [ValueError]
    for a date that does not exist). *)

(** [(1[0-2]|0[1-9]|[1-9])-]: the month and the hyphen that follows. *)
Definition match_month (s : string) : option (Z * string) :=
  match s with
  | String a (String b (String c r)) =>
      if Ascii.eqb a "1" && in_range "0" "2" b && Ascii.eqb c "-"
      then Some (10 + digit_value b, r)
      else if Ascii.eqb a "0" && in_range "1" "9" b && Ascii.eqb c "-"
      then Some (digit_value b, r)
      else if in_range "1" "9" a && Ascii.eqb b "-"
      then Some (digit_value a, String c r)
      else None
  | String a (String b EmptyString) =>
      if in_range "1" "9" a && Ascii.eqb b "-"
      then Some (digit_value a, EmptyString)
      else None
  | _ => None
  end.

(** [3[01]|[12]\d|0[1-9]|[1-9]| [1-9]]: the first alternative that
    matches is taken. *)
Definition match_day (s : string) : option (Z * string) :=
  match s with
  | String a (String b r) =>
      if Ascii.eqb a "3" && in_range "0" "1" b
      then Some (30 + digit_value b, r)
      else if in_range "1" "2" a && is_digit b
      then Some (10 * digit_value a + digit_value b, r)
      else if Ascii.eqb a "0" && in_range "1" "9" b
      then Some (digit_value b, r)
      else if in_range "1" "9" a
      then Some (digit_value a, String b r)
      else if Ascii.eqb a " " && in_range "1" "9" b
      then Some (digit_value b, r)
      else None
  | String a EmptyString =>
      if in_range "1" "9" a then Some (digit_value a, EmptyString) else None
  | EmptyString => None
  end.

Definition strptime_date (s : string) : res date :=
  match s with
  | String y1 (String y2 (String y3 (String y4 (String h rest)))) =>
      if is_digit y1 && is_digit y2 && is_digit y3 && is_digit y4
         && Ascii.eqb h "-"
      then
        match match_month rest with
        | Some (m, rest') =>
            match match_day rest' with
            | Some (d, EmptyString) =>
                new_date (1000 * digit_value y1 + 100 * digit_value y2
                          + 10 * digit_value y3 + digit_value y4) m d
            | _ => Raise ValueError
            end
        | None => Raise ValueError
        end
      else Raise ValueError
  | _ => Raise ValueError
  end.

(** ** Domain objects *)

(** [suggestion_registry.TranslationContributionStats].  The three key
    fields are [Optional[str]]. *)
Module TranslationContributionStats.
Record t : Type := mk {
  language_code : option string;
  contributor_user_id : option string;
  topic_id : option string;
  submitted_translations_count : Z;
  submitted_translation_word_count : Z;
  accepted_translations_count : Z;
  accepted_translations_without_reviewer_edits_count : Z;
  accepted_translation_word_count : Z;
  rejected_translations_count : Z;
  rejected_translation_word_count : Z;
  contribution_dates : gset date
}.

(** Modelled from the spec: [create_default] of
    [core/domain/suggestion_registry.py] is not among the sources.
    The spec has the identity as the zero-valued aggregate: all counts
    0, empty date set, language, contributor and topic not set. *)
Definition create_default : t :=
  mk None None None 0 0 0 0 0 0 0 ∅.
End TranslationContributionStats.

(** The stats dictionary [_generate_stats] yields next to each key. *)
Module StatEvent.
Record t : Type := mk {
  suggestion_status : string;
  edited_by_reviewer : bool;
  content_word_count : Z;
  last_updated_date : string
}.
End StatEvent.

(** [datetime.datetime]: a calendar date and the time of day, the
    latter as microseconds since midnight. *)
Module datetime.
Record t : Type := mk { date_part : date; time_part : Z }.
End datetime.

(** [suggestion_models.GeneralSuggestionModel] and the
    [suggestion_registry.SuggestionTranslateContent] that
    [get_suggestion_from_model] makes of it, with the fields the job
    reads; [content_html] is [change.content_html]. *)
Module Suggestion.
Record t : Type := mk {
  suggestion_type : string;
  target_id : string;
  language_code : string;
  author_id : string;
  status : string;
  edited_by_reviewer : bool;
  content_html : string;
  last_updated : datetime.t
}.
End Suggestion.

(** [opportunity_models.ExplorationOpportunitySummaryModel] and the
    [opportunity_domain.ExplorationOpportunitySummary] made of it. *)
Module Opportunity.
Record t : Type := mk { id : string; topic_id : string }.
End Opportunity.

(** [suggestion_models.TranslationContributionStatsModel]. *)
Module StatsModel.
Record t : Type := mk {
  id : string;
  language_code : string;
  contributor_user_id : string;
  topic_id : string;
  submitted_translations_count : Z;
  submitted_translation_word_count : Z;
  accepted_translations_count : Z;
  accepted_translations_without_reviewer_edits_count : Z;
  accepted_translation_word_count : Z;
  rejected_translations_count : Z;
  rejected_translation_word_count : Z;
  contribution_dates : gset date
}.

(** Modelled from the spec: [generate_id] of
    [core/storage/suggestion/gae_models.py] is not among the sources.
    The spec has the canonical key as the three components joined by
    the delimiter ['.'], as in [es.u1.t1] and [es.u1.]. *)
Definition generate_id (language_code contributor_user_id topic_id : string)
  : string :=
  language_code +:+ "." +:+ contributor_user_id +:+ "." +:+ topic_id.
End StatsModel.

(** [job_run_result.JobRunResult]. *)
Module JobRunResult.
Record t : Type := mk { stdout : string; stderr : string }.
End JobRunResult.

(** ** Built-ins *)

(** [sum(xs)]: starts from 0 and adds from the left. *)
Definition py_sum (xs : list Z) : Z := fold_left Z.add xs 0.

(** [xs[0]]. *)
Definition first {A : Type} (xs : list A) : res A :=
  match xs with
  | x :: _ => Ok x
  | [] => Raise IndexError
  end.

(** [s.split(sep)] for a one-character separator. *)
Fixpoint split (sep : ascii) (s : string) : list string :=
  match s with
  | EmptyString => [EmptyString]
  | String c s' =>
      if Ascii.eqb c sep then EmptyString :: split sep s'
      else match split sep s' with
           | w :: ws => String c w :: ws
           | [] => [String c EmptyString]
           end
  end.

(** [sep.join(ws)]. *)
Fixpoint join (sep : string) (ws : list string) : string :=
  match ws with
  | [] => EmptyString
  | w :: ws' =>
      match ws' with
      | [] => w
      | _ :: _ => w +:+ sep +:+ join sep ws'
      end
  end.

(** [s.count(c)]. *)
Fixpoint count_char (c : ascii) (s : string) : nat :=
  match s with
  | EmptyString => 0%nat
  | String c' s' => ((if Ascii.eqb c' c then 1 else 0) + count_char c s')%nat
  end.

(** [str.isspace] on one code point below 256. *)
Definition is_space (c : ascii) : bool :=
  let n := code c in
  ((9 <=? n) && (n <=? 13)) || ((28 <=? n) && (n <=? 32))
  || (n =? 133) || (n =? 160).

(** [len(s.split())]: the number of maximal runs of characters that are
    not whitespace.  [in_word] tells whether the previous character
    belongs to a run. *)
Fixpoint count_words_from (in_word : bool) (s : string) : Z :=
  match s with
  | EmptyString => 0
  | String c s' =>
      if is_space c then count_words_from false s'
      else (if in_word then 0 else 1) + count_words_from true s'
  end.

Definition count_words (s : string) : Z := count_words_from false s.

(** ** Sample data *)

(** A stand-in for [html_cleaner.strip_html_tags] in the examples: it
    drops what stands between angle brackets. *)
Fixpoint drop_tags (in_tag : bool) (s : string) : string :=
  match s with
  | EmptyString => EmptyString
  | String c s' =>
      if Ascii.eqb c "<" then drop_tags true s'
      else if Ascii.eqb c ">" then drop_tags false s'
      else if in_tag then drop_tags true s'
      else String c (drop_tags false s')
  end.

Definition sample_suggestion : Suggestion.t :=
  Suggestion.mk "translate_content" "exp1" "es" "u1" "accepted" false
    "<p>hi there</p>" (datetime.mk (Date 2024 1 5) 0).

Definition sample_question : Suggestion.t :=
  Suggestion.mk "add_question" "skill1" "en" "u2" "review" false
    EmptyString (datetime.mk (Date 2024 2 29) 0).

Definition sample_accepted : Suggestion.t :=
  Suggestion.mk "translate_content" "exp1" "es" "u1" "accepted" true
    "<p>one two three</p>" (datetime.mk (Date 2024 1 5) 0).

Definition sample_rejected : Suggestion.t :=
  Suggestion.mk "translate_content" "exp1" "es" "u1" "rejected" false
    "<p>a b <b>c</b> d e</p>" (datetime.mk (Date 2024 1 7) 0).

Definition sample_dotted : Suggestion.t :=
  Suggestion.mk "translate_content" "exp1" "pt.br" "u3" "review" false
    "<p>um dois</p>" (datetime.mk (Date 2024 3 1) 0).

Definition sample_opportunity : Opportunity.t := Opportunity.mk "exp1" "t1".

Definition sample_other_opportunity : Opportunity.t :=
  Opportunity.mk "exp2" "t9".

Definition sample_duplicate : Opportunity.t := Opportunity.mk "exp1" "t2".

Definition sample_event : StatEvent.t :=
  StatEvent.mk "accepted" false 2 "2024-01-05".

Definition sample_rejected_event : StatEvent.t :=
  StatEvent.mk "rejected" false 5 "2024-01-06".

Definition sample_bad_event : StatEvent.t :=
  StatEvent.mk "accepted" false 2 "05/01/2024".

(** ** Beam transforms

    A [PCollection] has no order; the lists below fix one.  Keys come
    in order of first occurrence, the values of a key in input order. *)

Section Beam.
Context {K : Type} `{EqDecision K}.

(** The distinct keys of a list, each at its first occurrence. *)
Fixpoint distinct (ks : list K) : list K :=
  match ks with
  | [] => []
  | k :: ks' => k :: filter (λ k', k' ≠ k) (distinct ks')
  end.

Definition values_for {V : Type} (k : K) (kvs : list (K * V)) : list V :=
  map snd (filter (λ kv, kv.1 = k) kvs).

(** [beam.GroupBy(f)]: one [(key, elements)] pair per distinct key. *)
Definition GroupBy {V : Type} (f : V → K) (l : list V)
  : list (K * list V) :=
  map (λ k, (k, filter (λ v, f v = k) l)) (distinct (map f l)).

(** The value [beam.CoGroupByKey] builds for one key from the
    dictionary [{'suggestion': ..., 'opportunity': ...}]. *)
Record tagged (A B : Type) : Type :=
  Tagged { suggestion : list A; opportunity : list B }.
#[global] Arguments Tagged {A B} _ _.
#[global] Arguments suggestion {A B} _.
#[global] Arguments opportunity {A B} _.

(** [beam.CoGroupByKey()]: for every key of either input, the values
    it has in each. *)
Definition CoGroupByKey {A B : Type}
    (suggestions : list (K * A)) (opportunities : list (K * B))
  : list (K * tagged A B) :=
  map (λ k, (k, Tagged (values_for k suggestions)
                       (values_for k opportunities)))
      (distinct (map fst suggestions ++ map fst opportunities)).

(** [beam.Values()]. *)
Definition Values {V : Type} (kvs : list (K * V)) : list V := map snd kvs.

(** [beam.CombinePerKey(fn)] with one bundle per key: the values of a
    key are folded into a fresh accumulator with [add_input], and the
    result goes through [extract_output]. *)
Definition CombinePerKey {V Acc Out : Type}
    (create_accumulator : Acc) (add_input : Acc → V → res Acc)
    (extract_output : Acc → Out) (kvs : list (K * V))
  : res (list (K * Out)) :=
  res_map (λ k,
      acc ← res_fold add_input create_accumulator (values_for k kvs);
      Ok (k, extract_output acc))
    (distinct (map fst kvs)).
End Beam.

(** [beam.ParDo(f)] for a function returning an iterable. *)
Definition ParDo {A B : Type} (f : A → res (list B)) (l : list A)
  : res (list B) :=
  ls ← res_map f l; Ok (concat ls).

(** [beam.combiners.Count.Globally().without_defaults()]: the number of
    elements, and nothing at all for an empty collection. *)
Definition Count_Globally_without_defaults {A : Type} (l : list A) : list Z :=
  match l with
  | [] => []
  | _ :: _ => [Z.of_nat (length l)]
  end.

(** ** [scripts/run_backend_tests.py]

    The checks of the test runner that need no process and no file
    system: what is read from a file or found by walking the
    directories is an argument. *)

(** The exceptions the script raises itself. *)
Inductive script_exn : Type :=
| Exception (message : string)
| AssertionError.

Inductive outcome (A : Type) : Type :=
| Returns (a : A)
| Raises (e : script_exn).
Arguments Returns {A} a.
Arguments Raises {A} e.

(** [s1 <= s2] on [str]: the lexicographic order of the code points. *)
Definition str_le (s1 s2 : string) : Prop := String.leb s1 s2 = true.

#[global] Instance str_le_dec (s1 s2 : string) : Decision (str_le s1 s2).
Proof. unfold str_le. apply _. Defined.

(** [sorted(l)] for a list of [str]. *)
Definition sorted (l : list string) : list string := merge_sort str_le l.

(** [l.count(x)]. *)
Definition count (x : string) (l : list string) : nat :=
  length (filter (λ y, y = x) l).

(** [s.lstrip()], [s.rstrip()] and [s.strip()]. *)
Fixpoint lstrip (s : string) : string :=
  match s with
  | EmptyString => EmptyString
  | String c s' => if is_space c then lstrip s' else s
  end.

Fixpoint rstrip (s : string) : string :=
  match s with
  | EmptyString => EmptyString
  | String c s' =>
      match rstrip s' with
      | EmptyString => if is_space c then EmptyString else String c EmptyString
      | String c' r => String c (String c' r)
      end
  end.

Definition strip (s : string) : string := rstrip (lstrip s).

(** [s.startswith(c)] for one character. *)
Definition startswith (c : ascii) (s : string) : bool :=
  match s with
  | EmptyString => false
  | String c' _ => Ascii.eqb c' c
  end.

(** [_load_coverage_exclusion_list], on the lines of the file at
    [path] as iterating the file gives them. *)
Definition _load_coverage_exclusion_list (exclusion_file : list string)
  : list string :=
  fold_left
    (λ exclusion_list line,
       let line := strip line in
       if startswith "#" line || bool_decide (line = EmptyString)
       then exclusion_list
       else (exclusion_list ++ [line])%list)
    exclusion_file [].

Definition SHARDS_WIKI_LINK : string :=
  "https://github.com/oppia/oppia/wiki/Writing-backend-tests#common-errors".

(** The loop over [shard_modules] that returns the first module whose
    count is not 1. *)
Fixpoint first_duplicated (shard_modules rest : list string) : option string :=
  match rest with
  | [] => None
  | module :: rest' =>
      if decide (count module shard_modules ≠ 1%nat) then Some module
      else first_duplicated shard_modules rest'
  end.

Section CheckShards.

(** [SHARDS_SPEC_PATH] starts with the working directory, and
    [format_set] is what [str.format] prints for a set. *)
Variable SHARDS_SPEC_PATH : string.
Variable format_set : gset string → string.

(** [_check_shards_match_tests], on the object read from
    [SHARDS_SPEC_PATH] (shard names with their modules) and on the
    test targets [_get_all_test_targets_from_path] found. *)
Definition _check_shards_match_tests
    (shards_spec : list (string * list string))
    (test_targets_from_path : list string) : outcome string :=
  let shard_modules := sorted (concat (map snd shards_spec)) in
  let test_modules := test_targets_from_path in
  let test_modules_set : gset string := list_to_set test_modules in
  let test_modules := sorted (elements test_modules_set) in
  if decide (test_modules = shard_modules) then Returns EmptyString
  else if decide (size (list_to_set shard_modules : gset string)
                  ≠ length shard_modules)
  then
    (* A module is duplicated, so we find the duplicate. *)
    match first_duplicated shard_modules shard_modules with
    | Some module =>
        Returns (module +:+ " duplicated in " +:+ SHARDS_SPEC_PATH)
    | None =>
        Raises (Exception "Failed to find  module duplicated in shards.")
    end
  else
    let shard_modules_set : gset string := list_to_set shard_modules in
    let shard_extra := shard_modules_set ∖ test_modules_set in
    if decide (shard_extra ≠ ∅)
    then Returns ("Modules " +:+ format_set shard_extra
                  +:+ " in shards not found. See " +:+ SHARDS_WIKI_LINK
                  +:+ ".")
    else
      let test_extra := test_modules_set ∖ shard_modules_set in
      if decide (test_extra ≠ ∅)
      then Returns ("Modules " +:+ format_set test_extra
                    +:+ " not in shards. See " +:+ SHARDS_WIKI_LINK +:+ ".")
      else Raises AssertionError.

End CheckShards.

(** ** [CombineStats] *)

Section Job.

(** Constants of [suggestion_models] and [feconf], and the HTML
    stripper of [html_cleaner]; none of them is among the sources. *)
Variable STATUS_ACCEPTED : string.
Variable STATUS_REJECTED : string.
Variable SUGGESTION_TYPE_TRANSLATE_CONTENT : string.
Variable strip_html_tags : string → string.

Import TranslationContributionStats.

Definition create_accumulator : TranslationContributionStats.t :=
  create_default.

(** [strptime] raises [ValueError] on a string that is not a date;
    nothing in [add_input] catches it. *)
Definition add_input (accumulator : TranslationContributionStats.t)
    (translation : StatEvent.t) : res TranslationContributionStats.t :=
  let is_accepted :=
    bool_decide (StatEvent.suggestion_status translation = STATUS_ACCEPTED) in
  let is_accepted_and_not_edited :=
    is_accepted && negb (StatEvent.edited_by_reviewer translation) in
  let is_rejected :=
    bool_decide (StatEvent.suggestion_status translation = STATUS_REJECTED) in
  let word_count := StatEvent.content_word_count translation in
  suggestion_date ← strptime_date (StatEvent.last_updated_date translation);
  Ok (mk
    (language_code accumulator)
    (contributor_user_id accumulator)
    (topic_id accumulator)
    (submitted_translations_count accumulator + 1)
    (submitted_translation_word_count accumulator + word_count)
    (accepted_translations_count accumulator + Z.b2z is_accepted)
    (accepted_translations_without_reviewer_edits_count accumulator
     + Z.b2z is_accepted_and_not_edited)
    (accepted_translation_word_count accumulator
     + word_count * Z.b2z is_accepted)
    (rejected_translations_count accumulator + Z.b2z is_rejected)
    (rejected_translation_word_count accumulator
     + word_count * Z.b2z is_rejected)
    (contribution_dates accumulator ∪ {[ suggestion_date ]})).

(** [accumulators] is a list: the code iterates it once for every
    field.  [list(accumulators)[0]] raises [IndexError] when it is
    empty. *)
Definition merge_accumulators
    (accumulators : list TranslationContributionStats.t)
  : res TranslationContributionStats.t :=
  first_acc ← first accumulators;
  Ok (mk
    (language_code first_acc)
    (contributor_user_id first_acc)
    (topic_id first_acc)
    (py_sum (map submitted_translations_count accumulators))
    (py_sum (map submitted_translation_word_count accumulators))
    (py_sum (map accepted_translations_count accumulators))
    (py_sum (map accepted_translations_without_reviewer_edits_count
            accumulators))
    (py_sum (map accepted_translation_word_count accumulators))
    (py_sum (map rejected_translations_count accumulators))
    (py_sum (map rejected_translation_word_count accumulators))
    (⋃ (map contribution_dates accumulators))).

Definition extract_output (accumulator : TranslationContributionStats.t)
  : TranslationContributionStats.t := accumulator.

(** What Beam computes for one key when all its values are in one
    bundle: the values folded into a fresh accumulator. *)
Definition reduce (translations : list StatEvent.t)
  : res TranslationContributionStats.t :=
  res_fold add_input create_accumulator translations.

(** The record [add_input] builds once the date is read. *)
Definition add_event (acc : TranslationContributionStats.t)
    (translation : StatEvent.t) (d : date) : TranslationContributionStats.t :=
  let is_accepted :=
    bool_decide (StatEvent.suggestion_status translation = STATUS_ACCEPTED) in
  let is_rejected :=
    bool_decide (StatEvent.suggestion_status translation = STATUS_REJECTED) in
  let word_count := StatEvent.content_word_count translation in
  mk (language_code acc) (contributor_user_id acc) (topic_id acc)
    (submitted_translations_count acc + 1)
    (submitted_translation_word_count acc + word_count)
    (accepted_translations_count acc + Z.b2z is_accepted)
    (accepted_translations_without_reviewer_edits_count acc
     + Z.b2z (is_accepted && negb (StatEvent.edited_by_reviewer translation)))
    (accepted_translation_word_count acc + word_count * Z.b2z is_accepted)
    (rejected_translations_count acc + Z.b2z is_rejected)
    (rejected_translation_word_count acc + word_count * Z.b2z is_rejected)
    (contribution_dates acc ∪ {[ d ]}).

(** The merge of two accumulators: [merge_accumulators [a; b]]. *)
Definition combine (a b : TranslationContributionStats.t)
  : TranslationContributionStats.t :=
  mk (language_code a) (contributor_user_id a) (topic_id a)
    (submitted_translations_count a + submitted_translations_count b)
    (submitted_translation_word_count a + submitted_translation_word_count b)
    (accepted_translations_count a + accepted_translations_count b)
    (accepted_translations_without_reviewer_edits_count a
     + accepted_translations_without_reviewer_edits_count b)
    (accepted_translation_word_count a + accepted_translation_word_count b)
    (rejected_translations_count a + rejected_translations_count b)
    (rejected_translation_word_count a + rejected_translation_word_count b)
    (contribution_dates a ∪ contribution_dates b).

(** ** Partial aggregation

    Beam may fold the values of a key in several bundles and merge
    the accumulators, and merge merged accumulators again.  A [plan]
    is one such schedule: [Bundle g] folds the events [g] into a
    fresh accumulator, [Merge ps] passes the accumulators of [ps] to
    [merge_accumulators]. *)
#[warnings="-register-all"]
Inductive plan : Type :=
| Bundle (g : list StatEvent.t)
| Merge (ps : list plan).

Fixpoint run_plan (p : plan) : res TranslationContributionStats.t :=
  match p with
  | Bundle g => reduce g
  | Merge ps => accs ← res_map run_plan ps; merge_accumulators accs
  end.

(** The events of a plan, bundle after bundle. *)
Fixpoint plan_events (p : plan) : list StatEvent.t :=
  match p with
  | Bundle g => g
  | Merge ps => concat (map plan_events ps)
  end.

(** Beam never merges an empty list of accumulators. *)
Fixpoint plan_wf (p : plan) : bool :=
  match p with
  | Bundle _ => true
  | Merge ps =>
      match ps with
      | [] => false
      | _ :: _ => forallb plan_wf ps
      end
  end.

(** The accumulators [CombineStats] can build from the events the
    job derives, whose word counts are lengths. *)
Inductive reachable : TranslationContributionStats.t → Prop :=
| reachable_create : reachable create_accumulator
| reachable_add acc translation acc' :
    reachable acc →
    0 ≤ StatEvent.content_word_count translation →
    add_input acc translation = Ok acc' →
    reachable acc'
| reachable_merge accs acc :
    (∀ a, a ∈ accs → reachable a) →
    merge_accumulators accs = Ok acc →
    reachable acc.

(** The invariants of the aggregate record. *)
Record stats_invariant (x : TranslationContributionStats.t) : Prop := {
  inv_submitted : 0 ≤ submitted_translations_count x;
  inv_submitted_words : 0 ≤ submitted_translation_word_count x;
  inv_accepted : 0 ≤ accepted_translations_count x;
  inv_no_edits : 0 ≤ accepted_translations_without_reviewer_edits_count x;
  inv_accepted_words : 0 ≤ accepted_translation_word_count x;
  inv_rejected : 0 ≤ rejected_translations_count x;
  inv_rejected_words : 0 ≤ rejected_translation_word_count x;
  inv_no_edits_le :
    accepted_translations_without_reviewer_edits_count x
    ≤ accepted_translations_count x;
  inv_accepted_le :
    accepted_translations_count x ≤ submitted_translations_count x;
  inv_reviewed_le :
    accepted_translations_count x + rejected_translations_count x
    ≤ submitted_translations_count x;
  inv_accepted_words_le :
    accepted_translation_word_count x ≤ submitted_translation_word_count x;
  inv_rejected_words_le :
    rejected_translation_word_count x ≤ submitted_translation_word_count x;
  inv_dates :
    Z.of_nat (size (contribution_dates x)) ≤ submitted_translations_count x
}.

(** ** [GenerateTranslationContributionStatsJob] *)

Definition _generate_stats (suggestions : list Suggestion.t)
    (opportunity : option Opportunity.t)
  : list (string * StatEvent.t) :=
  (* When opportunity is not available we leave the topic ID empty. *)
  let topic_id :=
    match opportunity with
    | Some o => Opportunity.topic_id o
    | None => EmptyString
    end in
  map (λ suggestion,
      let content_plain_text :=
        strip_html_tags (Suggestion.content_html suggestion) in
      let content_word_count := count_words content_plain_text in
      let key :=
        StatsModel.generate_id (Suggestion.language_code suggestion)
          (Suggestion.author_id suggestion) topic_id in
      (key,
       StatEvent.mk
         (Suggestion.status suggestion)
         (Suggestion.edited_by_reviewer suggestion)
         content_word_count
         (isoformat (datetime.date_part (Suggestion.last_updated suggestion)))))
    suggestions.

(** [update_timestamps] stamps the model with the current time; the
    timestamps are not part of the model here. *)
Definition _generate_translation_contribution_model (entity_id : string)
    (translation : TranslationContributionStats.t) : res StatsModel.t :=
  match split "." entity_id with
  | [language_code; contributor_user_id; topic_id] =>
      Ok (StatsModel.mk entity_id language_code contributor_user_id topic_id
            (submitted_translations_count translation)
            (submitted_translation_word_count translation)
            (accepted_translations_count translation)
            (accepted_translations_without_reviewer_edits_count translation)
            (accepted_translation_word_count translation)
            (rejected_translations_count translation)
            (rejected_translation_word_count translation)
            (contribution_dates translation))
  | _ => Raise ValueError
  end.

(** The function of the ['Generate stats'] step. *)
Definition generate_stats_of_join
    (x : tagged (list Suggestion.t) (list Opportunity.t))
  : res (list (string * StatEvent.t)) :=
  let suggestions :=
    match suggestion x with
    | g :: _ => g
    | [] => []
    end in
  opportunity ←
    match opportunity x with
    | g :: _ => o ← first g; Ok (Some o)
    | [] => Ok None
    end;
  Ok (_generate_stats suggestions opportunity).

(** The keyed stat events, after ['Generate stats']. *)
Definition stat_events (suggestion_models : list Suggestion.t)
    (opportunity_models : list Opportunity.t)
  : res (list (string * StatEvent.t)) :=
  let suggestions_grouped_by_target :=
    GroupBy Suggestion.target_id
      (filter (λ m, Suggestion.suggestion_type m
                    = SUGGESTION_TYPE_TRANSLATE_CONTENT)
         suggestion_models) in
  let exp_opportunities := GroupBy Opportunity.id opportunity_models in
  ParDo generate_stats_of_join
    (Values (CoGroupByKey suggestions_grouped_by_target exp_opportunities)).

(** The models handed to [ndb_io.PutModels]. *)
Definition new_user_stats_models (suggestion_models : list Suggestion.t)
    (opportunity_models : list Opportunity.t) : res (list StatsModel.t) :=
  stats ← stat_events suggestion_models opportunity_models;
  combined ← CombinePerKey create_accumulator add_input extract_output stats;
  res_map (λ kv, _generate_translation_contribution_model kv.1 kv.2)
    combined.

(** The results the job returns for the models it made. *)
Definition job_run_results (models : list StatsModel.t)
  : list JobRunResult.t :=
  map (λ x, JobRunResult.mk ("SUCCESS " +:+ pretty x) EmptyString)
    (filter (λ x, x > 0) (Count_Globally_without_defaults models)).

(** [run]: the models put into the datastore and the results
    returned, or the exception that fails the pipeline. *)
Definition run (suggestion_models : list Suggestion.t)
    (opportunity_models : list Opportunity.t)
  : res (list StatsModel.t * list JobRunResult.t) :=
  models ← new_user_stats_models suggestion_models opportunity_models;
  Ok (models, job_run_results models).

(** ** The join, as the spec words it

    A left outer join of the translation proposals to the
    opportunities by opportunity id: one event per proposal, keyed
    with the topic of the opportunity attached to the proposal's
    target, or with the empty topic when there is none. *)

Definition first_opportunity_with_id (opportunity_models : list Opportunity.t)
    (target : string) : option Opportunity.t :=
  head (filter (λ o, Opportunity.id o = target) opportunity_models).

Definition left_join_events (suggestion_models : list Suggestion.t)
    (opportunity_models : list Opportunity.t)
  : list (string * StatEvent.t) :=
  concat
    (map (λ s, _generate_stats [s]
                 (first_opportunity_with_id opportunity_models
                    (Suggestion.target_id s)))
       (filter (λ m, Suggestion.suggestion_type m
                     = SUGGESTION_TYPE_TRANSLATE_CONTENT)
          suggestion_models)).

(** The opportunities with the later duplicates of each id removed. *)
Fixpoint first_per_id (opportunity_models : list Opportunity.t)
  : list Opportunity.t :=
  match opportunity_models with
  | [] => []
  | o :: os =>
      o :: filter (λ o', Opportunity.id o' ≠ Opportunity.id o)
             (first_per_id os)
  end.

(** The targets and opportunity ids the co-group has an entry for. *)
Definition join_keys (suggestions : list Suggestion.t)
    (opportunities : list Opportunity.t) : list string :=
  distinct (distinct (map Suggestion.target_id suggestions)
            ++ distinct (map Opportunity.id opportunities)).

(** A proposal the job can turn into a model: its date is a date and
    neither its language code nor its author id holds the delimiter. *)
Definition suggestion_ok (s : Suggestion.t) : Prop :=
  valid_date (datetime.date_part (Suggestion.last_updated s))
  ∧ count_char "." (Suggestion.language_code s) = 0%nat
  ∧ count_char "." (Suggestion.author_id s) = 0%nat.

Definition opportunity_ok (o : Opportunity.t) : Prop :=
  count_char "." (Opportunity.topic_id o) = 0%nat.

(** ** Properties *)

(** *** The [res] monad *)

Lemma res_bind_Ok {A B : Type} (a : A) (f : A → res B) :
  (x ← Ok a; f x) = f a.
Proof. reflexivity. Qed.

Lemma res_fold_app {A B : Type} (f : B → A → res B) (a : B) (l1 l2 : list A) :
  res_fold f a (l1 ++ l2) = (a' ← res_fold f a l1; res_fold f a' l2).
Proof.
  revert a. induction l1 as [|x l1 IH]; intros a; simpl; [done|].
  destruct (f a x) as [a'|e]; simpl; [apply IH | done].
Qed.

Lemma res_map_ext_Forall {A B : Type} (f g : A → res B) (l : list A) :
  Forall (λ x, f x = g x) l → res_map f l = res_map g l.
Proof.
  induction 1 as [|x l Hx _ IH]; simpl; [done|]. by rewrite Hx, IH.
Qed.

Lemma res_map_map {A B C : Type} (f : B → res C) (g : A → B) (l : list A) :
  res_map f (map g l) = res_map (λ x, f (g x)) l.
Proof. induction l as [|x l IH]; simpl; [done|]. by rewrite IH. Qed.

Lemma res_map_Ok {A B : Type} (f : A → B) (l : list A) :
  res_map (λ x, Ok (f x)) l = Ok (map f l).
Proof. induction l as [|x l IH]; simpl; [done|]. by rewrite IH. Qed.

(** *** Dates *)

Lemma digit_value_char (n : Z) :
  0 ≤ n < 10 → digit_value (digit_char n) = n ∧ is_digit (digit_char n) = true.
Proof.
  intros Hn.
  assert (n = 0 ∨ n = 1 ∨ n = 2 ∨ n = 3 ∨ n = 4 ∨ n = 5 ∨ n = 6 ∨ n = 7
          ∨ n = 8 ∨ n = 9) as Hcases by lia.
  repeat (destruct Hcases as [->|Hcases]; [by vm_compute|]).
  subst n. by vm_compute.
Qed.

Lemma new_date_valid (d : date) :
  valid_date d → new_date (year d) (month d) (day d) = Ok d.
Proof. unfold valid_date, new_date. intros ->. by destruct d. Qed.

Lemma valid_date_bounds (d : date) :
  valid_date d →
  1 ≤ year d ≤ 9999 ∧ 1 ≤ month d ≤ 12 ∧ 1 ≤ day d ≤ 31.
Proof.
  unfold valid_date, date_fields_ok, days_in_month. intros H.
  repeat (apply andb_prop in H as [H ?]).
  repeat case_match; lia.
Qed.

(** The date part of the string [isoformat] prints for a month and a
    day is read back by the two matchers. *)
Lemma match_month_day_iso (m dd : Z) :
  1 ≤ m ≤ 12 → 1 ≤ dd ≤ 31 →
  match_month
    (String (digit_char (m / 10 mod 10))
    (String (digit_char (m mod 10))
    (String "-"
    (String (digit_char (dd / 10 mod 10))
    (String (digit_char (dd mod 10)) EmptyString)))))
  = Some (m, String (digit_char (dd / 10 mod 10))
               (String (digit_char (dd mod 10)) EmptyString))
  ∧ match_day
      (String (digit_char (dd / 10 mod 10))
      (String (digit_char (dd mod 10)) EmptyString))
    = Some (dd, EmptyString).
Proof.
  intros Hm Hd. split.
  - assert (m = 1 ∨ m = 2 ∨ m = 3 ∨ m = 4 ∨ m = 5 ∨ m = 6 ∨ m = 7 ∨ m = 8
            ∨ m = 9 ∨ m = 10 ∨ m = 11 ∨ m = 12) as Hcases by lia.
    repeat (destruct Hcases as [->|Hcases]; [by vm_compute|]).
    subst m. by vm_compute.
  - assert (∃ n : nat, dd = 1 + Z.of_nat n ∧ (n < 31)%nat) as (n & -> & Hn).
    { exists (Z.to_nat (dd - 1)). lia. }
    do 31 (destruct n as [|n]; [by vm_compute|]). lia.
Qed.

Theorem strptime_isoformat (d : date) :
  valid_date d → strptime_date (isoformat d) = Ok d.
Proof.
  intros Hd. pose proof (valid_date_bounds d Hd) as (Hy & Hm & Hdd).
  unfold isoformat, strptime_date.
  destruct (digit_value_char (year d / 1000 mod 10)) as [E1 ->];
    [apply Z.mod_pos_bound; lia|].
  destruct (digit_value_char (year d / 100 mod 10)) as [E2 ->];
    [apply Z.mod_pos_bound; lia|].
  destruct (digit_value_char (year d / 10 mod 10)) as [E3 ->];
    [apply Z.mod_pos_bound; lia|].
  destruct (digit_value_char (year d mod 10)) as [E4 ->];
    [apply Z.mod_pos_bound; lia|].
  rewrite E1, E2, E3, E4. simpl andb. cbv iota.
  destruct (match_month_day_iso (month d) (day d) Hm Hdd) as [-> ->].
  replace (1000 * (year d / 1000 mod 10) + 100 * (year d / 100 mod 10)
           + 10 * (year d / 10 mod 10) + year d mod 10) with (year d).
  - by apply new_date_valid.
  - rewrite (Z.mod_small (year d / 1000) 10)
      by (split; [apply Z.div_pos; lia | apply Z.div_lt_upper_bound; lia]).
    pose proof (Z.div_mod (year d) 10 ltac:(lia)).
    pose proof (Z.div_mod (year d / 10) 10 ltac:(lia)).
    pose proof (Z.div_mod (year d / 100) 10 ltac:(lia)).
    rewrite (Z.div_div (year d) 10 10) in * by lia.
    rewrite (Z.div_div (year d) 100 10) in * by lia.
    change (10 * 10) with 100 in *. change (100 * 10) with 1000 in *. lia.
Qed.

Lemma strptime_date_raises (s : string) (e : exn) :
  strptime_date s = Raise e → e = ValueError.
Proof.
  unfold strptime_date, new_date.
  repeat case_match; congruence.
Qed.

(** *** [CombineStats]: algebra of accumulators *)

Lemma add_input_unfold acc translation :
  add_input acc translation
  = (d ← strptime_date (StatEvent.last_updated_date translation);
     Ok (add_event acc translation d)).
Proof. reflexivity. Qed.

Lemma stats_eq (x y : TranslationContributionStats.t) :
  language_code x = language_code y →
  contributor_user_id x = contributor_user_id y →
  topic_id x = topic_id y →
  submitted_translations_count x = submitted_translations_count y →
  submitted_translation_word_count x = submitted_translation_word_count y →
  accepted_translations_count x = accepted_translations_count y →
  accepted_translations_without_reviewer_edits_count x
  = accepted_translations_without_reviewer_edits_count y →
  accepted_translation_word_count x = accepted_translation_word_count y →
  rejected_translations_count x = rejected_translations_count y →
  rejected_translation_word_count x = rejected_translation_word_count y →
  contribution_dates x = contribution_dates y →
  x = y.
Proof. destruct x, y; simpl; intros; by simplify_eq. Qed.

Ltac stats_ext :=
  apply stats_eq; simpl; try reflexivity; try lia;
  try (apply set_eq; intros ?; set_unfold; clear; tauto).

Lemma combine_add_event a b translation d :
  combine a (add_event b translation d)
  = add_event (combine a b) translation d.
Proof. stats_ext. Qed.

Lemma combine_create_default a : combine a create_accumulator = a.
Proof. stats_ext. Qed.

Lemma combine_assoc a b c : combine (combine a b) c = combine a (combine b c).
Proof. stats_ext. Qed.

Lemma add_event_comm a t1 d1 t2 d2 :
  add_event (add_event a t1 d1) t2 d2 = add_event (add_event a t2 d2) t1 d1.
Proof. stats_ext. Qed.

Lemma py_sum_cons (x : Z) (xs : list Z) : py_sum (x :: xs) = x + py_sum xs.
Proof.
  unfold py_sum. simpl.
  assert (∀ a b, fold_left Z.add xs (a + b) = b + fold_left Z.add xs a) as H.
  { induction xs as [|y xs IH]; intros a b; simpl; [lia|].
    rewrite <- IH. f_equal. lia. }
  apply H.
Qed.

Lemma py_sum_nil : py_sum [] = 0.
Proof. reflexivity. Qed.

(** Merging a non-empty list is merging pairwise from the left. *)
Lemma merge_accumulators_cons a accs :
  merge_accumulators (a :: accs) = Ok (fold_left combine accs a).
Proof.
  revert a. induction accs as [|b accs IH]; intros a.
  - unfold merge_accumulators. simpl. f_equal. stats_ext.
    all: rewrite ?py_sum_cons, ?py_sum_nil; lia.
  - simpl fold_left. rewrite <- IH.
    unfold merge_accumulators. simpl. f_equal. stats_ext.
    all: rewrite ?py_sum_cons; lia.
Qed.

Lemma merge_accumulators_nil : merge_accumulators [] = Raise IndexError.
Proof. reflexivity. Qed.

(** Folding into [combine a b] is folding into [b] and merging the
    result into [a], exceptions included. *)
Lemma res_fold_combine a b translations :
  res_fold add_input (combine a b) translations
  = (x ← res_fold add_input b translations; Ok (combine a x)).
Proof.
  revert b. induction translations as [|t ts IH]; intros b; simpl; [done|].
  rewrite !add_input_unfold.
  destruct (strptime_date (StatEvent.last_updated_date t)) as [d|e];
    simpl; [|done].
  by rewrite <- combine_add_event, IH.
Qed.

Lemma res_fold_from a translations :
  res_fold add_input a translations
  = (x ← reduce translations; Ok (combine a x)).
Proof.
  unfold reduce. rewrite <- res_fold_combine.
  by rewrite combine_create_default.
Qed.

(** Folding the bundles one after the other into [a] is merging the
    folds of the bundles into [a]. *)
Lemma res_fold_concat a (bundles : list (list StatEvent.t)) :
  res_fold add_input a (concat bundles)
  = (xs ← res_map reduce bundles; Ok (fold_left combine xs a)).
Proof.
  revert a. induction bundles as [|g gs IH]; intros a; simpl; [done|].
  rewrite res_fold_app, res_fold_from.
  destruct (reduce g) as [x|e]; simpl; [|done].
  rewrite IH. by destruct (res_map reduce gs).
Qed.

Lemma res_fold_add_input_perm a (l1 l2 : list StatEvent.t) :
  l1 ≡ₚ l2 → res_fold add_input a l1 = res_fold add_input a l2.
Proof.
  intros Hperm. revert a.
  induction Hperm as [|t l1 l2 _ IH|t1 t2 l|l1 l2 l3 _ IH1 _ IH2]; intros a.
  - done.
  - simpl. destruct (add_input a t); simpl; [apply IH | done].
  - simpl. rewrite !add_input_unfold.
    destruct (strptime_date (StatEvent.last_updated_date t1)) as [d1|e1] eqn:E1,
             (strptime_date (StatEvent.last_updated_date t2)) as [d2|e2] eqn:E2;
      simpl; rewrite ?add_input_unfold, ?E1, ?E2; simpl.
    + by rewrite add_event_comm.
    + done.
    + done.
    + apply strptime_date_raises in E1, E2. by subst.
  - by rewrite IH1, IH2.
Qed.

(** Induction on plans, with the hypothesis for every sub-plan. *)
Lemma plan_ind' (P : plan → Prop) :
  (∀ g, P (Bundle g)) →
  (∀ ps, Forall P ps → P (Merge ps)) →
  ∀ p, P p.
Proof.
  intros HB HM. fix IH 1. intros [g|ps]; [apply HB|].
  apply HM. induction ps as [|q qs IHqs]; constructor; [apply IH | apply IHqs].
Qed.

(** A plan computes the fold of its events. *)
Lemma run_plan_events (p : plan) :
  plan_wf p = true → run_plan p = reduce (plan_events p).
Proof.
  induction p as [g|ps IH] using plan_ind'; intros Hwf; simpl; [done|].
  simpl in Hwf. destruct ps as [|p ps]; [done|].
  assert (Forall (λ q, run_plan q = reduce (plan_events q)) (p :: ps)) as Hall.
  { apply Is_true_true_2, forallb_True in Hwf.
    eapply Forall_impl; [apply Forall_and; split; [exact IH | exact Hwf]|].
    intros q [Hq Hq']. apply Hq. by apply Is_true_true_1. }
  rewrite (res_map_ext_Forall _ _ _ Hall), <- res_map_map.
  unfold reduce at 2. rewrite res_fold_concat.
  change (map plan_events (p :: ps))
    with (plan_events p :: map plan_events ps).
  simpl res_map.
  destruct (reduce (plan_events p)) as [x|e] eqn:Ex; simpl.
  - destruct (res_map reduce (map plan_events ps)) as [xs|e]; simpl; [|done].
    rewrite merge_accumulators_cons. f_equal. f_equal.
    unfold reduce in Ex.
    rewrite <- (combine_create_default create_accumulator) in Ex.
    rewrite res_fold_combine in Ex. fold (reduce (plan_events p)) in Ex.
    destruct (reduce (plan_events p)) as [y|]; simpl in Ex; [|done].
    injection Ex as <-. stats_ext.
  - done.
Qed.

Lemma res_fold_add_input_keys a translations x :
  res_fold add_input a translations = Ok x →
  language_code x = language_code a
  ∧ contributor_user_id x = contributor_user_id a
  ∧ topic_id x = topic_id a.
Proof.
  revert a. induction translations as [|t ts IH]; intros a; simpl.
  - by intros [= <-].
  - rewrite add_input_unfold.
    destruct (strptime_date (StatEvent.last_updated_date t)) as [d|e];
      simpl; [|done].
    intros Hx. by apply IH in Hx.
Qed.

Lemma res_fold_add_input_raises a translations e :
  res_fold add_input a translations = Raise e → e = ValueError.
Proof.
  revert a. induction translations as [|t ts IH]; intros a; simpl; [done|].
  rewrite add_input_unfold.
  destruct (strptime_date (StatEvent.last_updated_date t)) as [d|e'] eqn:E;
    simpl.
  - apply IH.
  - intros [= <-]. by apply strptime_date_raises in E.
Qed.

Lemma res_fold_add_input_total a (translations : list StatEvent.t) :
  Forall (λ t, ∃ d, strptime_date (StatEvent.last_updated_date t) = Ok d)
    translations →
  ∃ x, res_fold add_input a translations = Ok x.
Proof.
  intros Hall. revert a.
  induction Hall as [|t ts [d Hd] _ IH]; intros a; simpl; [by eexists|].
  rewrite add_input_unfold, Hd. simpl. apply IH.
Qed.

(** C1.  For the events of one key, merging with
    [merge_accumulators] the folds of the groups of any partition
    gives the fold of all the events in one group, whatever the
    boundaries of the groups and the order of the events (first
    part); the same holds when merged accumulators are merged again,
    in any nesting (second part); and the fold yields an aggregate
    as soon as every date reads (third part). Equality is equality of
    every counter and of the date sets. *)
Theorem partial_merges_agree (translations : list StatEvent.t) :
  (∀ groups : list (list StatEvent.t),
     groups ≠ [] →
     concat groups ≡ₚ translations →
     (accs ← res_map reduce groups; merge_accumulators accs)
     = reduce translations)
  ∧ (∀ p : plan,
       plan_wf p = true →
       plan_events p ≡ₚ translations →
       run_plan p = reduce translations)
  ∧ (Forall (λ t, ∃ d, strptime_date (StatEvent.last_updated_date t) = Ok d)
       translations →
     ∃ x, reduce translations = Ok x).
Proof.
  assert (∀ p : plan, plan_wf p = true → plan_events p ≡ₚ translations →
          run_plan p = reduce translations) as Hplan.
  { intros p Hwf Hperm. rewrite run_plan_events by done.
    by apply res_fold_add_input_perm. }
  split; [|split].
  - intros groups Hne Hperm.
    specialize (Hplan (Merge (map Bundle groups))).
    simpl in Hplan. rewrite res_map_map, map_map, map_id in Hplan.
    apply Hplan; [|done].
    assert (forallb plan_wf (map Bundle groups) = true) as Hwf
      by (clear; induction groups as [|g gs IH]; [done | exact IH]).
    by destruct groups.
  - exact Hplan.
  - apply res_fold_add_input_total.
Qed.

(** C2.  For an accumulator and an event whose date reads as [d],
    [add_input] returns a new accumulator with the submitted count
    one higher and the submitted word count higher by the event's
    word count; the accepted count and word count higher by one and
    by the word count when the status is [STATUS_ACCEPTED] and
    unchanged otherwise; the count of acceptances without reviewer
    edits one higher when moreover the reviewer did not edit, and
    unchanged otherwise; the rejected count and word count higher by
    one and by the word count when the status is [STATUS_REJECTED]
    and unchanged otherwise; and [d] added to the contribution
    dates. *)
Theorem add_input_increments (acc : TranslationContributionStats.t)
    (translation : StatEvent.t) (d : date) :
  strptime_date (StatEvent.last_updated_date translation) = Ok d →
  let status := StatEvent.suggestion_status translation in
  let edited := StatEvent.edited_by_reviewer translation in
  let words := StatEvent.content_word_count translation in
  ∃ acc',
    add_input acc translation = Ok acc'
    ∧ submitted_translations_count acc'
      = submitted_translations_count acc + 1
    ∧ submitted_translation_word_count acc'
      = submitted_translation_word_count acc + words
    ∧ (status = STATUS_ACCEPTED →
       accepted_translations_count acc'
       = accepted_translations_count acc + 1
       ∧ accepted_translation_word_count acc'
         = accepted_translation_word_count acc + words)
    ∧ (status ≠ STATUS_ACCEPTED →
       accepted_translations_count acc' = accepted_translations_count acc
       ∧ accepted_translation_word_count acc'
         = accepted_translation_word_count acc)
    ∧ (status = STATUS_ACCEPTED ∧ edited = false →
       accepted_translations_without_reviewer_edits_count acc'
       = accepted_translations_without_reviewer_edits_count acc + 1)
    ∧ (¬ (status = STATUS_ACCEPTED ∧ edited = false) →
       accepted_translations_without_reviewer_edits_count acc'
       = accepted_translations_without_reviewer_edits_count acc)
    ∧ (status = STATUS_REJECTED →
       rejected_translations_count acc'
       = rejected_translations_count acc + 1
       ∧ rejected_translation_word_count acc'
         = rejected_translation_word_count acc + words)
    ∧ (status ≠ STATUS_REJECTED →
       rejected_translations_count acc' = rejected_translations_count acc
       ∧ rejected_translation_word_count acc'
         = rejected_translation_word_count acc)
    ∧ contribution_dates acc' = contribution_dates acc ∪ {[ d ]}.
Proof.
  intros Hd status edited words. subst status edited words.
  rewrite add_input_unfold, Hd. simpl. eexists. split; [reflexivity|].
  simpl. repeat split.
  all: intros; repeat case_bool_decide;
    destruct (StatEvent.edited_by_reviewer translation) eqn:?;
    repeat match goal with H : _ ∧ _ |- _ => destruct H end;
    simpl; try lia; try congruence;
    exfalso; match goal with H : ¬ _ |- _ => apply H; by split end.
Qed.

(** *** Invariants *)

Ltac stats_fields :=
  cbn [add_event combine create_accumulator create_default
       language_code contributor_user_id topic_id
       submitted_translations_count submitted_translation_word_count
       accepted_translations_count
       accepted_translations_without_reviewer_edits_count
       accepted_translation_word_count rejected_translations_count
       rejected_translation_word_count contribution_dates].

Lemma stats_invariant_create : stats_invariant create_accumulator.
Proof. split; stats_fields; rewrite ?size_empty; lia. Qed.

Lemma stats_invariant_add_event a translation d :
  STATUS_ACCEPTED ≠ STATUS_REJECTED →
  0 ≤ StatEvent.content_word_count translation →
  stats_invariant a → stats_invariant (add_event a translation d).
Proof.
  intros Hne Hw [].
  assert (Z.of_nat (size (contribution_dates a ∪ {[d]}))
          ≤ Z.of_nat (size (contribution_dates a)) + 1) as Hsize.
  { pose proof (size_union_alt (contribution_dates a) {[d]}) as Hs.
    pose proof (subseteq_size ({[d]} ∖ contribution_dates a) {[d]}
                  ltac:(set_unfold; clear; tauto)) as Hle.
    rewrite size_singleton in Hle. lia. }
  split; stats_fields; try lia.
  all: repeat case_bool_decide;
    destruct (StatEvent.edited_by_reviewer translation);
    cbn [Z.b2z andb negb]; try congruence; try nia.
Qed.

Lemma stats_invariant_combine a b :
  stats_invariant a → stats_invariant b → stats_invariant (combine a b).
Proof.
  intros [] [].
  pose proof (size_union_alt (contribution_dates a) (contribution_dates b)).
  pose proof (subseteq_size (contribution_dates b ∖ contribution_dates a)
                (contribution_dates b) ltac:(set_unfold; clear; tauto)).
  split; stats_fields; lia.
Qed.

(** C3.  With two distinct status constants, every accumulator
    reachable from [create_accumulator] by [add_input] and
    [merge_accumulators] has all counters non-negative, no more
    acceptances without reviewer edits than acceptances, no more
    acceptances than submissions, no more acceptances and rejections
    together than submissions, no more accepted words and no more
    rejected words than submitted words, and no more contribution
    dates than submissions. *)
Theorem reachable_invariant (x : TranslationContributionStats.t) :
  STATUS_ACCEPTED ≠ STATUS_REJECTED →
  reachable x → stats_invariant x.
Proof.
  intros Hne Hx.
  induction Hx as [|acc t acc' _ IH Hw Hadd|accs acc _ IH Hmerge].
  - apply stats_invariant_create.
  - rewrite add_input_unfold in Hadd.
    destruct (strptime_date (StatEvent.last_updated_date t)) as [d|e];
      simpl in Hadd; [|done].
    injection Hadd as <-. by apply stats_invariant_add_event.
  - destruct accs as [|a accs]; [done|].
    rewrite merge_accumulators_cons in Hmerge. injection Hmerge as <-.
    assert (stats_invariant a) as Ha by (apply IH; left).
    assert (∀ b, b ∈ accs → stats_invariant b) as Hall
      by (intros b Hb; apply IH; by right).
    clear IH. revert a Ha.
    induction accs as [|b accs IHaccs]; intros a Ha; simpl; [done|].
    apply IHaccs.
    + intros c Hc. apply Hall. by right.
    + apply stats_invariant_combine; [done|]. apply Hall. left.
Qed.

(** C7.  For [x] the fold of a non-empty group of events,
    [merge_accumulators [create_accumulator; x]] is [x], in every
    field: the three key fields, the counters and the contribution
    dates. *)
Theorem merge_identity_left (translations : list StatEvent.t)
    (x : TranslationContributionStats.t) :
  translations ≠ [] →
  reduce translations = Ok x →
  merge_accumulators [create_accumulator; x] = Ok x.
Proof.
  intros _ Hx. rewrite merge_accumulators_cons. simpl. f_equal.
  apply res_fold_add_input_keys in Hx as (Hl & Hc & Ht).
  stats_ext; by symmetry.
Qed.

(** *** Keys and [split] *)

Lemma split_length (sep : ascii) (s : string) :
  length (split sep s) = S (count_char sep s).
Proof.
  induction s as [|c s IH]; simpl; [done|].
  destruct (Ascii.eqb c sep); simpl; [by rewrite IH|].
  destruct (split sep s) as [|w ws]; simpl in *; [done | exact IH].
Qed.

Lemma count_char_app (c : ascii) (s1 s2 : string) :
  count_char c (s1 +:+ s2) = (count_char c s1 + count_char c s2)%nat.
Proof. induction s1 as [|c' s1 IH]; simpl; [done|]. rewrite IH. lia. Qed.

Lemma split_without_sep (sep : ascii) (s : string) :
  count_char sep s = 0%nat → split sep s = [s].
Proof.
  induction s as [|c s IH]; simpl; [done|].
  destruct (Ascii.eqb c sep); simpl; [done|].
  intros H. by rewrite IH.
Qed.

Lemma split_app_sep (sep : ascii) (s1 s2 : string) :
  count_char sep s1 = 0%nat →
  split sep (s1 +:+ String sep s2) = s1 :: split sep s2.
Proof.
  induction s1 as [|c s1 IH]; simpl.
  - intros _. by rewrite Ascii.eqb_refl.
  - destruct (Ascii.eqb c sep); simpl; [done|].
    intros H. by rewrite IH.
Qed.

Lemma count_char_generate_id (l c t : string) :
  count_char "." (StatsModel.generate_id l c t)
  = (2 + count_char "." l + count_char "." c + count_char "." t)%nat.
Proof.
  unfold StatsModel.generate_id. rewrite !count_char_app. simpl. lia.
Qed.

Lemma split_generate_id (l c t : string) :
  count_char "." l = 0%nat → count_char "." c = 0%nat →
  count_char "." t = 0%nat →
  split "." (StatsModel.generate_id l c t) = [l; c; t].
Proof.
  intros Hl Hc Ht. unfold StatsModel.generate_id.
  change ("." +:+ c +:+ "." +:+ t) with (String "." (c +:+ "." +:+ t)).
  rewrite split_app_sep by done.
  change ("." +:+ t) with (String "." t).
  rewrite split_app_sep by done.
  by rewrite split_without_sep.
Qed.

Lemma generate_model_Ok (entity_id : string)
    (translation : TranslationContributionStats.t) :
  count_char "." entity_id = 2%nat →
  ∃ m, _generate_translation_contribution_model entity_id translation = Ok m
       ∧ split "." entity_id
         = [StatsModel.language_code m; StatsModel.contributor_user_id m;
            StatsModel.topic_id m]
       ∧ StatsModel.id m = entity_id.
Proof.
  intros Hcount. unfold _generate_translation_contribution_model.
  pose proof (split_length "." entity_id) as Hlen. rewrite Hcount in Hlen.
  destruct (split "." entity_id) as [|a [|b [|c [|]]]]; try done.
  by eexists.
Qed.

Lemma generate_model_Raise (entity_id : string)
    (translation : TranslationContributionStats.t) :
  count_char "." entity_id ≠ 2%nat →
  _generate_translation_contribution_model entity_id translation
  = Raise ValueError.
Proof.
  intros Hcount. unfold _generate_translation_contribution_model.
  pose proof (split_length "." entity_id) as Hlen.
  destruct (split "." entity_id) as [|a [|b [|c [|]]]]; try done.
  simpl in Hlen. lia.
Qed.

(** C8, amended.  [create_accumulator] is the zero-valued aggregate
    with the language, contributor and topic not set; folding events
    into it leaves the three fields not set, whatever key the events
    belong to; the key's components are the fields of the model
    [_generate_translation_contribution_model] makes from the key. *)
Theorem key_fields_come_from_entity_id :
  create_accumulator = mk None None None 0 0 0 0 0 0 0 ∅
  ∧ (∀ translations x,
       reduce translations = Ok x →
       language_code x = None ∧ contributor_user_id x = None
       ∧ topic_id x = None)
  ∧ (∀ l c t x,
       count_char "." l = 0%nat → count_char "." c = 0%nat →
       count_char "." t = 0%nat →
       ∃ m, _generate_translation_contribution_model
              (StatsModel.generate_id l c t) x = Ok m
            ∧ StatsModel.language_code m = l
            ∧ StatsModel.contributor_user_id m = c
            ∧ StatsModel.topic_id m = t).
Proof.
  split; [done|]. split.
  - intros translations x Hx. by apply res_fold_add_input_keys in Hx.
  - intros l c t x Hl Hc Ht.
    destruct (generate_model_Ok (StatsModel.generate_id l c t) x)
      as (m & Hm & Hsplit & _).
    { rewrite count_char_generate_id, Hl, Hc, Ht. done. }
    exists m. split; [done|].
    rewrite split_generate_id in Hsplit by done. by injection Hsplit.
Qed.

(** *** Grouping *)

Section Grouping.
Context {K : Type} `{EqDecision K}.

Lemma elem_of_distinct (k : K) (ks : list K) : k ∈ distinct ks ↔ k ∈ ks.
Proof.
  induction ks as [|k' ks IH]; simpl; [done|].
  rewrite !elem_of_cons, list_elem_of_filter, IH.
  split; [intros [?|[? ?]]; auto|].
  intros [?|?]; [auto|]. destruct (decide (k = k')); auto.
Qed.

Lemma NoDup_distinct (ks : list K) : NoDup (distinct ks).
Proof.
  induction ks as [|k ks IH]; simpl; constructor.
  - rewrite list_elem_of_filter. by intros [Hne _].
  - by apply NoDup_filter.
Qed.

Lemma filter_other_keys (k : K) (ks : list K) :
  k ∉ ks → filter (λ k', k' ≠ k) ks = ks.
Proof.
  induction ks as [|k' ks IH]; [done|].
  rewrite not_elem_of_cons. intros [Hne Hk].
  rewrite filter_cons_True by congruence. f_equal. by apply IH.
Qed.

Lemma distinct_NoDup (ks : list K) : NoDup ks → distinct ks = ks.
Proof.
  induction 1 as [|k ks Hk _ IH]; simpl; [done|].
  rewrite IH. f_equal. by apply filter_other_keys.
Qed.

Lemma distinct_idemp (ks : list K) : distinct (distinct ks) = distinct ks.
Proof. apply distinct_NoDup, NoDup_distinct. Qed.

Lemma values_for_tabulate {V : Type} (F : K → V) (k : K) (ks : list K) :
  NoDup ks →
  values_for k (map (λ k', (k', F k')) ks)
  = if decide (k ∈ ks) then [F k] else [].
Proof.
  unfold values_for. induction 1 as [|k' ks Hk' _ IH]; cbn [map].
  - by rewrite decide_False by apply not_elem_of_nil.
  - destruct (decide (k' = k)) as [->|Hne].
    + rewrite filter_cons_True by done. cbn [map snd]. rewrite IH.
      rewrite decide_False by done.
      by rewrite decide_True by left.
    + rewrite filter_cons_False by done. rewrite IH.
      destruct (decide (k ∈ ks)) as [Hin|Hnin].
      * by rewrite decide_True by (by right).
      * rewrite decide_False; [done|].
        rewrite elem_of_cons. by intros [->|?].
Qed.

Lemma GroupBy_keys {V : Type} (f : V → K) (l : list V) :
  map fst (GroupBy f l) = distinct (map f l).
Proof. unfold GroupBy. rewrite map_map. simpl. apply map_id. Qed.

Lemma values_for_GroupBy {V : Type} (f : V → K) (l : list V) (k : K) :
  values_for k (GroupBy f l)
  = if decide (k ∈ map f l) then [filter (λ v, f v = k) l] else [].
Proof.
  unfold GroupBy.
  rewrite (values_for_tabulate (λ k, filter (λ v, f v = k) l))
    by apply NoDup_distinct.
  destruct (decide (k ∈ distinct (map f l))) as [Hin|Hnin];
    rewrite elem_of_distinct in *.
  - by rewrite decide_True.
  - by rewrite decide_False.
Qed.

Lemma filter_key_nil {V : Type} (f : V → K) (l : list V) (k : K) :
  k ∉ map f l → filter (λ v, f v = k) l = [].
Proof.
  intros Hk. induction l as [|v l IH]; [done|].
  simpl in Hk. rewrite not_elem_of_cons in Hk. destruct Hk as [Hne Hk].
  rewrite filter_cons_False by done. by apply IH.
Qed.

Lemma filter_key_cons {V : Type} (f : V → K) (l : list V) (k : K) :
  k ∈ map f l → ∃ v vs, filter (λ v, f v = k) l = v :: vs.
Proof.
  intros Hk. apply list_elem_of_fmap in Hk as (v & -> & Hv).
  destruct (filter (λ v', f v' = f v) l) as [|v' vs] eqn:E; [|by eauto].
  assert (v ∈ filter (λ v', f v' = f v) l) as Hin
    by (by apply list_elem_of_filter).
  rewrite E in Hin. by apply not_elem_of_nil in Hin.
Qed.

(** The groups of the keys [ks] are the elements of [l], when every
    element has its key in [ks]. *)
Lemma concat_groups_perm {V : Type} (f : V → K) (ks : list K) (l : list V) :
  NoDup ks →
  (∀ v, v ∈ l → f v ∈ ks) →
  concat (map (λ k, filter (λ v, f v = k) l) ks) ≡ₚ l.
Proof.
  intros Hnd. revert l.
  induction Hnd as [|k ks Hk _ IH]; intros l Hl; simpl.
  - destruct l as [|v l]; [done|].
    specialize (Hl v ltac:(left)). by apply not_elem_of_nil in Hl.
  - etrans; [|apply (filter_app_complement (λ v, f v = k) l)].
    apply Permutation_app; [done|].
    rewrite (map_ext_in _
               (λ k', filter (λ v, f v = k') (filter (λ v, ¬ f v = k) l))).
    + apply IH. intros v Hv. apply list_elem_of_filter in Hv as [Hne Hv].
      specialize (Hl v Hv). rewrite elem_of_cons in Hl.
      by destruct Hl as [Hl|Hl].
    + intros k' Hk'. apply list_elem_of_In in Hk'. symmetry.
      apply list_filter_filter_l. intros v -> ->. done.
Qed.

Lemma res_map_raises {A B : Type} (f : A → res B) (l : list A) (x : A) :
  (∀ y e, f y = Raise e → e = ValueError) →
  x ∈ l → f x = Raise ValueError → res_map f l = Raise ValueError.
Proof.
  intros Hf Hx Hfx. induction l as [|y l IH]; simpl.
  - by apply not_elem_of_nil in Hx.
  - destruct (f y) as [b|e] eqn:Ey; simpl.
    + rewrite elem_of_cons in Hx. destruct Hx as [->|Hx]; [congruence|].
      by rewrite IH.
    + by rewrite (Hf _ _ Ey).
Qed.
End Grouping.

(** *** The join *)

Lemma generate_stats_concat suggestions opportunity :
  _generate_stats suggestions opportunity
  = concat (map (λ s, _generate_stats [s] opportunity) suggestions).
Proof.
  induction suggestions as [|s ss IH]; [done|].
  change (_generate_stats (s :: ss) opportunity)
    with ((_generate_stats [s] opportunity
           ++ _generate_stats ss opportunity)%list).
  by rewrite IH.
Qed.

Lemma generate_stats_of_join_cogroup (suggestions : list Suggestion.t)
    (opportunities : list Opportunity.t) (k : string) :
  generate_stats_of_join
    (Tagged (values_for k (GroupBy Suggestion.target_id suggestions))
            (values_for k (GroupBy Opportunity.id opportunities)))
  = Ok (_generate_stats
          (filter (λ s, Suggestion.target_id s = k) suggestions)
          (first_opportunity_with_id opportunities k)).
Proof.
  unfold generate_stats_of_join, first_opportunity_with_id.
  rewrite !values_for_GroupBy. cbn [suggestion opportunity].
  assert ((if decide (k ∈ map Suggestion.target_id suggestions)
           then [filter (λ s, Suggestion.target_id s = k) suggestions]
           else []) = [] →
          filter (λ s, Suggestion.target_id s = k) suggestions = []) as Hs.
  { case_decide; [done|]. intros _. by apply filter_key_nil. }
  destruct (decide (k ∈ map Opportunity.id opportunities)) as [Hin|Hnin].
  - destruct (filter_key_cons Opportunity.id opportunities k Hin)
      as (o & os & ->). simpl.
    case_decide; [done|]. by rewrite Hs.
  - rewrite (filter_key_nil Opportunity.id opportunities k Hnin). simpl.
    case_decide; [done|]. by rewrite Hs.
Qed.

Lemma stat_events_eq (suggestion_models : list Suggestion.t)
    (opportunity_models : list Opportunity.t) :
  let suggestions :=
    filter (λ m, Suggestion.suggestion_type m
                 = SUGGESTION_TYPE_TRANSLATE_CONTENT) suggestion_models in
  stat_events suggestion_models opportunity_models
  = Ok (concat
          (map (λ k, _generate_stats
                       (filter (λ s, Suggestion.target_id s = k) suggestions)
                       (first_opportunity_with_id opportunity_models k))
             (join_keys suggestions opportunity_models))).
Proof.
  intros suggestions. unfold stat_events, ParDo, Values, CoGroupByKey.
  fold suggestions. rewrite !GroupBy_keys, map_map. cbn [snd].
  rewrite res_map_map.
  rewrite (res_map_ext_Forall _
             (λ k, Ok (_generate_stats
                         (filter (λ s, Suggestion.target_id s = k) suggestions)
                         (first_opportunity_with_id opportunity_models k)))).
  - by rewrite res_map_Ok.
  - apply Forall_forall. intros k _. apply generate_stats_of_join_cogroup.
Qed.

Lemma concat_map_concat {A B : Type} (h : A → list B) (ls : list (list A)) :
  concat (map (λ l, concat (map h l)) ls) = concat (map h (concat ls)).
Proof.
  induction ls as [|l ls IH]; simpl; [done|].
  by rewrite map_app, concat_app, IH.
Qed.

Lemma stat_events_left_join (suggestion_models : list Suggestion.t)
    (opportunity_models : list Opportunity.t) :
  ∃ events,
    stat_events suggestion_models opportunity_models = Ok events
    ∧ events ≡ₚ left_join_events suggestion_models opportunity_models.
Proof.
  eexists. split; [apply stat_events_eq|].
  unfold left_join_events.
  set (suggestions := filter _ suggestion_models).
  set (h := λ s, _generate_stats [s]
                   (first_opportunity_with_id opportunity_models
                      (Suggestion.target_id s))).
  rewrite (map_ext_in _
             (λ k, concat (map h (filter (λ s, Suggestion.target_id s = k)
                                    suggestions)))).
  - rewrite <- (map_map (λ k, filter (λ s, Suggestion.target_id s = k)
                               suggestions)
                  (λ l, concat (map h l))).
    rewrite concat_map_concat, <- !(flat_map_concat_map h).
    apply Permutation_flat_map, concat_groups_perm.
    + apply NoDup_distinct.
    + intros s Hs. unfold join_keys.
      rewrite elem_of_distinct, elem_of_app, elem_of_distinct.
      left. by apply list_elem_of_fmap_2.
  - intros k _. rewrite generate_stats_concat. f_equal.
    apply map_ext_in. intros s Hs.
    apply list_elem_of_In, list_elem_of_filter in Hs as [<- _]. done.
Qed.

(** C4.  For a translation proposal among the input whose target
    matches no opportunity id, the ['Generate stats'] step does not
    fail, its events are one for one the events of the left join,
    the proposal contributes exactly one pair to them, and the key of
    that pair is [generate_id language author EmptyString], that is
    [language.author.] with the empty topic. *)
Theorem unmatched_proposal_is_counted (suggestion_models : list Suggestion.t)
    (opportunity_models : list Opportunity.t) (s : Suggestion.t) :
  s ∈ suggestion_models →
  Suggestion.suggestion_type s = SUGGESTION_TYPE_TRANSLATE_CONTENT →
  (∀ o, o ∈ opportunity_models →
        Opportunity.id o ≠ Suggestion.target_id s) →
  ∃ events translation,
    stat_events suggestion_models opportunity_models = Ok events
    ∧ events ≡ₚ left_join_events suggestion_models opportunity_models
    ∧ _generate_stats [s]
        (first_opportunity_with_id opportunity_models
           (Suggestion.target_id s))
      = [(StatsModel.generate_id (Suggestion.language_code s)
            (Suggestion.author_id s) EmptyString, translation)]
    ∧ StatsModel.generate_id (Suggestion.language_code s)
        (Suggestion.author_id s) EmptyString
      = Suggestion.language_code s +:+ "." +:+ Suggestion.author_id s
        +:+ "."
    ∧ (StatsModel.generate_id (Suggestion.language_code s)
         (Suggestion.author_id s) EmptyString, translation) ∈ events.
Proof.
  intros Hs Htype Hunmatched.
  destruct (stat_events_left_join suggestion_models opportunity_models)
    as (events & Hevents & Hperm).
  assert (first_opportunity_with_id opportunity_models
            (Suggestion.target_id s) = None) as Hnone.
  { unfold first_opportunity_with_id.
    rewrite filter_key_nil; [done|].
    intros Hin. apply list_elem_of_fmap in Hin as (o & Ho & Hin).
    by apply (Hunmatched o Hin). }
  exists events. eexists. split; [done|]. split; [done|].
  rewrite Hnone. split; [reflexivity|]. split; [done|].
  rewrite Hperm. unfold left_join_events.
  apply list_elem_of_In, in_concat. eexists. split.
  - apply in_map_iff. exists s. split; [reflexivity|].
    apply list_elem_of_In, list_elem_of_filter. done.
  - rewrite Hnone. left. reflexivity.
Qed.

(** *** Duplicate opportunity ids *)

Lemma map_id_first_per_id (opportunity_models : list Opportunity.t) :
  map Opportunity.id (first_per_id opportunity_models)
  = distinct (map Opportunity.id opportunity_models).
Proof.
  induction opportunity_models as [|o os IH]; simpl; [done|].
  f_equal. rewrite <- IH. generalize (first_per_id os) as l. intros l.
  induction l as [|o' l IHl]; [done|].
  destruct (decide (Opportunity.id o' = Opportunity.id o)) as [E|E].
  - rewrite filter_cons_False by (by intros Hne). simpl.
    rewrite filter_cons_False by (by intros Hne). done.
  - rewrite filter_cons_True by done. simpl.
    rewrite filter_cons_True by done. by rewrite IHl.
Qed.

Lemma first_opportunity_first_per_id (opportunity_models : list Opportunity.t)
    (k : string) :
  first_opportunity_with_id (first_per_id opportunity_models) k
  = first_opportunity_with_id opportunity_models k.
Proof.
  unfold first_opportunity_with_id.
  induction opportunity_models as [|o os IH]; simpl; [done|].
  destruct (decide (Opportunity.id o = k)) as [E|E].
  - by rewrite !filter_cons_True by done.
  - rewrite !filter_cons_False by done. rewrite <- IH.
    f_equal. apply list_filter_filter_l. intros o' -> ->. done.
Qed.

Lemma NoDup_first_per_id (opportunity_models : list Opportunity.t) :
  NoDup (map Opportunity.id (first_per_id opportunity_models)).
Proof. rewrite map_id_first_per_id. apply NoDup_distinct. Qed.

(** C6, amended.  Opportunities that share an id do not make the run
    fail: the join takes the first opportunity of the id's group and
    ignores the others, so the run gives what it gives on the
    opportunities with the later duplicates of each id removed. *)
Theorem duplicate_opportunities_first_wins
    (suggestion_models : list Suggestion.t)
    (opportunity_models : list Opportunity.t) :
  run suggestion_models opportunity_models
  = run suggestion_models (first_per_id opportunity_models)
  ∧ NoDup (map Opportunity.id (first_per_id opportunity_models))
  ∧ ∀ k, first_opportunity_with_id (first_per_id opportunity_models) k
         = head (filter (λ o, Opportunity.id o = k) opportunity_models).
Proof.
  split; [|split].
  - unfold run, new_user_stats_models. rewrite !stat_events_eq.
    unfold join_keys. rewrite map_id_first_per_id, distinct_idemp.
    do 4 f_equal. apply map_ext. intros k.
    by rewrite first_opportunity_first_per_id.
  - apply NoDup_first_per_id.
  - apply first_opportunity_first_per_id.
Qed.

(** *** The run *)

Lemma job_run_results_eq (models : list StatsModel.t) :
  job_run_results models
  = match models with
    | [] => []
    | _ :: _ =>
        [JobRunResult.mk
           ("SUCCESS " +:+ pretty (Z.of_nat (length models))) EmptyString]
    end.
Proof.
  unfold job_run_results. destruct models as [|m ms]; [done|].
  unfold Count_Globally_without_defaults.
  rewrite filter_cons_True by (simpl; lia). done.
Qed.

Lemma stat_events_no_translation (suggestion_models : list Suggestion.t)
    (opportunity_models : list Opportunity.t) :
  Forall (λ s, Suggestion.suggestion_type s
               ≠ SUGGESTION_TYPE_TRANSLATE_CONTENT) suggestion_models →
  stat_events suggestion_models opportunity_models = Ok [].
Proof.
  intros Hnone.
  assert (filter (λ m, Suggestion.suggestion_type m
                       = SUGGESTION_TYPE_TRANSLATE_CONTENT)
            suggestion_models = []) as Hfilter.
  { induction Hnone as [|s ss Hs _ IH]; [done|].
    by rewrite filter_cons_False. }
  destruct (stat_events_left_join suggestion_models opportunity_models)
    as (events & -> & Hperm).
  unfold left_join_events in Hperm. rewrite Hfilter in Hperm.
  simpl in Hperm. by apply Permutation_nil_r in Hperm as ->.
Qed.

Lemma res_map_total {A B : Type} (f : A → res B) (l : list A) :
  Forall (λ x, ∃ y, f x = Ok y) l →
  ∃ ys, res_map f l = Ok ys ∧ Forall2 (λ x y, f x = Ok y) l ys.
Proof.
  induction 1 as [|x l [y Hy] _ (ys & Hys & Hall)]; simpl.
  - by eexists.
  - rewrite Hy, Hys. simpl. eexists. split; [done|]. by constructor.
Qed.

Lemma generate_stats_ok suggestions opportunity k translation :
  Forall suggestion_ok suggestions →
  from_option opportunity_ok True opportunity →
  (k, translation) ∈ _generate_stats suggestions opportunity →
  count_char "." k = 2%nat
  ∧ (∃ d, strptime_date (StatEvent.last_updated_date translation) = Ok d)
  ∧ 0 ≤ StatEvent.content_word_count translation.
Proof.
  intros Hss Ho Hin. unfold _generate_stats in Hin.
  apply list_elem_of_fmap in Hin as (s & [= -> ->] & Hs).
  rewrite Forall_forall in Hss. destruct (Hss s Hs) as (Hd & Hl & Ha).
  split; [|split].
  - rewrite count_char_generate_id, Hl, Ha.
    destruct opportunity as [o|]; simpl in *; [by rewrite Ho | done].
  - eexists. simpl. by apply strptime_isoformat.
  - simpl. unfold count_words. generalize false.
    induction (strip_html_tags (Suggestion.content_html s)) as [|c w IH];
      intros b; simpl; [done|].
    destruct (is_space c); [apply IH|].
    specialize (IH true). destruct b; lia.
Qed.

Lemma Forall_filter_keep {A : Type} (P Q : A → Prop)
    `{∀ x, Decision (Q x)} (l : list A) :
  Forall P l → Forall P (filter Q l).
Proof.
  rewrite !Forall_forall. intros HP x Hx.
  apply list_elem_of_filter in Hx as [_ Hx]. by apply HP.
Qed.

Lemma stat_events_ok (suggestion_models : list Suggestion.t)
    (opportunity_models : list Opportunity.t) :
  Forall suggestion_ok
    (filter (λ m, Suggestion.suggestion_type m
                  = SUGGESTION_TYPE_TRANSLATE_CONTENT) suggestion_models) →
  Forall opportunity_ok opportunity_models →
  ∃ events,
    stat_events suggestion_models opportunity_models = Ok events
    ∧ Forall (λ kv,
        count_char "." kv.1 = 2%nat
        ∧ (∃ d, strptime_date (StatEvent.last_updated_date kv.2) = Ok d)
        ∧ 0 ≤ StatEvent.content_word_count kv.2) events.
Proof.
  intros Hss Hos. eexists. split; [apply stat_events_eq|].
  apply Forall_forall. intros [k t] Hin.
  apply list_elem_of_In, in_concat in Hin as (l & Hl & Hin).
  apply in_map_iff in Hl as (k' & <- & _).
  apply list_elem_of_In in Hin.
  eapply generate_stats_ok; [| |exact Hin].
  - by apply Forall_filter_keep.
  - unfold first_opportunity_with_id.
    destruct (filter _ opportunity_models) as [|o os] eqn:E; simpl; [done|].
    rewrite Forall_forall in Hos. apply Hos.
    assert (o ∈ filter (λ o, Opportunity.id o = k') opportunity_models) as Ho
      by (rewrite E; left).
    by apply list_elem_of_filter in Ho as [_ Ho].
Qed.

Lemma CombinePerKey_ok (events : list (string * StatEvent.t)) :
  Forall (λ kv,
    ∃ d, strptime_date (StatEvent.last_updated_date kv.2) = Ok d) events →
  ∃ combined,
    CombinePerKey create_accumulator add_input extract_output events
    = Ok combined
    ∧ map fst combined = distinct (map fst events).
Proof.
  intros Hevents. unfold CombinePerKey.
  destruct (res_map_total
              (λ k, acc ← res_fold add_input create_accumulator
                             (values_for k events);
                    Ok (k, extract_output acc))
              (distinct (map fst events))) as (combined & -> & Hall).
  - apply Forall_forall. intros k _.
    destruct (res_fold_add_input_total create_accumulator
                (values_for k events)) as [x Hx].
    + unfold values_for. apply Forall_fmap.
      apply Forall_filter_keep. exact Hevents.
    + rewrite Hx. by eexists.
  - exists combined. split; [done|].
    induction Hall as [|k kv ks kvs Hk _ IH]; simpl; [done|].
    rewrite IH. f_equal.
    destruct (res_fold _ _ _); simpl in Hk; [|done].
    by injection Hk as <-.
Qed.

(** On proposals and opportunities that are well formed the run
    returns. *)
Lemma run_total (suggestion_models : list Suggestion.t)
    (opportunity_models : list Opportunity.t) :
  Forall suggestion_ok
    (filter (λ m, Suggestion.suggestion_type m
                  = SUGGESTION_TYPE_TRANSLATE_CONTENT) suggestion_models) →
  Forall opportunity_ok opportunity_models →
  ∃ models,
    run suggestion_models opportunity_models
    = Ok (models, job_run_results models).
Proof.
  intros Hss Hos. unfold run, new_user_stats_models.
  destruct (stat_events_ok _ _ Hss Hos) as (events & -> & Hevents).
  rewrite res_bind_Ok.
  destruct (CombinePerKey_ok events) as (combined & -> & Hkeys).
  { eapply Forall_impl; [exact Hevents|]. by intros kv (_ & H & _). }
  rewrite res_bind_Ok.
  destruct (res_map_total
              (λ kv, _generate_translation_contribution_model kv.1 kv.2)
              combined) as (models & -> & _).
  - apply Forall_forall. intros [k x] Hkx.
    assert (k ∈ map fst combined) as Hk
      by (apply list_elem_of_fmap; by exists (k, x)).
    rewrite Hkeys, elem_of_distinct in Hk.
    apply list_elem_of_fmap in Hk as ([k' t] & -> & Hin).
    rewrite Forall_forall in Hevents. destruct (Hevents _ Hin) as [Hc _].
    destruct (generate_model_Ok k' x Hc) as (m & Hm & _). by exists m.
  - by exists models.
Qed.

(** C5, amended.  A run that completes returns one result,
    ['SUCCESS n'] with [n] the number of models made, when it made at
    least one model, and no result at all when it made none; with no
    translation proposal among the input the run completes with no
    model and no result, which is not a failure; and on well-formed
    proposals and opportunities the run completes. *)
Theorem summary_only_when_models_exist :
  (∀ suggestion_models opportunity_models models results,
     run suggestion_models opportunity_models = Ok (models, results) →
     results
     = match models with
       | [] => []
       | _ :: _ =>
           [JobRunResult.mk
              ("SUCCESS " +:+ pretty (Z.of_nat (length models))) EmptyString]
       end)
  ∧ (∀ suggestion_models opportunity_models,
       Forall (λ s, Suggestion.suggestion_type s
                    ≠ SUGGESTION_TYPE_TRANSLATE_CONTENT) suggestion_models →
       run suggestion_models opportunity_models = Ok ([], []))
  ∧ (∀ suggestion_models opportunity_models,
       Forall suggestion_ok
         (filter (λ m, Suggestion.suggestion_type m
                       = SUGGESTION_TYPE_TRANSLATE_CONTENT)
            suggestion_models) →
       Forall opportunity_ok opportunity_models →
       ∃ models,
         run suggestion_models opportunity_models
         = Ok (models, job_run_results models)).
Proof.
  split; [|split].
  - intros suggestion_models opportunity_models models results.
    unfold run.
    destruct (new_user_stats_models _ _) as [ms|e]; simpl; [|done].
    intros [= <- <-]. apply job_run_results_eq.
  - intros suggestion_models opportunity_models Hnone.
    unfold run, new_user_stats_models.
    by rewrite stat_events_no_translation.
  - apply run_total.
Qed.

(** *** Dates that do not read *)

Lemma add_input_unparsable acc translation :
  (∀ d, strptime_date (StatEvent.last_updated_date translation) ≠ Ok d) →
  add_input acc translation = Raise ValueError.
Proof.
  intros Hbad. rewrite add_input_unfold.
  destruct (strptime_date _) as [d|e] eqn:E; simpl.
  - by destruct (Hbad d).
  - by rewrite (strptime_date_raises _ _ E).
Qed.

Lemma res_fold_unparsable acc translations translation :
  translation ∈ translations →
  (∀ d, strptime_date (StatEvent.last_updated_date translation) ≠ Ok d) →
  res_fold add_input acc translations = Raise ValueError.
Proof.
  intros Hin Hbad. revert acc.
  induction translations as [|t ts IH]; intros acc.
  - by apply not_elem_of_nil in Hin.
  - simpl. destruct (add_input acc t) as [acc'|e] eqn:E; simpl.
    + apply elem_of_cons in Hin as [->|Hin]; [|by apply IH].
      by rewrite add_input_unparsable in E.
    + rewrite add_input_unfold in E.
      destruct (strptime_date (StatEvent.last_updated_date t)) as [d|e'] eqn:E';
        simpl in E; [done|].
      injection E as <-. by rewrite (strptime_date_raises _ _ E').
Qed.

(** C9, amended.  An event whose [last_updated_date] does not read
    as a date makes [add_input] raise [ValueError]; the event is not
    skipped: the fold of a group that holds it raises, and so does
    the combine step of the job.  The events [_generate_stats]
    derives from proposals carry the [isoformat] of a date, which
    always reads. *)
Theorem unparsable_date_raises :
  (∀ acc translation,
     (∀ d, strptime_date (StatEvent.last_updated_date translation) ≠ Ok d) →
     add_input acc translation = Raise ValueError)
  ∧ (∀ acc translations translation,
       translation ∈ translations →
       (∀ d, strptime_date (StatEvent.last_updated_date translation)
             ≠ Ok d) →
       res_fold add_input acc translations = Raise ValueError)
  ∧ (∀ (events : list (string * StatEvent.t)) k translation,
       (k, translation) ∈ events →
       (∀ d, strptime_date (StatEvent.last_updated_date translation)
             ≠ Ok d) →
       CombinePerKey create_accumulator add_input extract_output events
       = Raise ValueError)
  ∧ (∀ suggestions opportunity k translation,
       Forall (λ s, valid_date
                      (datetime.date_part (Suggestion.last_updated s)))
         suggestions →
       (k, translation) ∈ _generate_stats suggestions opportunity →
       ∃ d, strptime_date (StatEvent.last_updated_date translation) = Ok d).
Proof.
  split; [|split; [|split]].
  - apply add_input_unparsable.
  - apply res_fold_unparsable.
  - intros events k translation Hin Hbad. unfold CombinePerKey.
    apply (res_map_raises _ _ k).
    + intros k' e. destruct (res_fold _ _ _) as [x|e'] eqn:E; simpl; [done|].
      intros [= <-]. by apply res_fold_add_input_raises in E.
    + apply elem_of_distinct, list_elem_of_fmap. by exists (k, translation).
    + rewrite (res_fold_unparsable _ _ translation); [done| |done].
      unfold values_for. apply list_elem_of_fmap. exists (k, translation).
      split; [done|]. by apply list_elem_of_filter.
  - intros suggestions opportunity k translation Hvalid Hin.
    unfold _generate_stats in Hin.
    apply list_elem_of_fmap in Hin as (s & [= -> ->] & Hs).
    rewrite Forall_forall in Hvalid. eexists. simpl.
    apply strptime_isoformat. by apply Hvalid.
Qed.

(** *** Keys the model cannot take *)

Lemma CombinePerKey_keys (events : list (string * StatEvent.t))
    (combined : list (string * TranslationContributionStats.t)) :
  CombinePerKey create_accumulator add_input extract_output events
  = Ok combined →
  map fst combined = distinct (map fst events).
Proof.
  unfold CombinePerKey. generalize (distinct (map fst events)) as ks.
  intros ks. revert combined.
  induction ks as [|k ks IH]; intros combined; simpl.
  - by intros [= <-].
  - destruct (res_fold _ _ _) as [x|e]; simpl; [|done].
    destruct (res_map _ ks) as [kvs|e]; simpl; [|done].
    intros [= <-]. simpl. f_equal. by apply IH.
Qed.

Lemma CombinePerKey_raises (events : list (string * StatEvent.t)) (e : exn) :
  CombinePerKey create_accumulator add_input extract_output events = Raise e →
  e = ValueError.
Proof.
  unfold CombinePerKey. generalize (distinct (map fst events)) as ks.
  induction ks as [|k ks IH]; simpl; [done|].
  destruct (res_fold _ _ _) as [x|e'] eqn:E; simpl.
  - destruct (res_map _ ks) as [kvs|e']; simpl; [done|].
    intros [= <-]. by apply IH.
  - intros [= <-]. by apply res_fold_add_input_raises in E.
Qed.

Lemma proposal_event_in (suggestion_models : list Suggestion.t)
    (opportunity_models : list Opportunity.t) (s : Suggestion.t) :
  s ∈ suggestion_models →
  Suggestion.suggestion_type s = SUGGESTION_TYPE_TRANSLATE_CONTENT →
  ∃ events,
    stat_events suggestion_models opportunity_models = Ok events
    ∧ ∀ kv, kv ∈ _generate_stats [s]
                   (first_opportunity_with_id opportunity_models
                      (Suggestion.target_id s)) →
            kv ∈ events.
Proof.
  intros Hs Htype.
  destruct (stat_events_left_join suggestion_models opportunity_models)
    as (events & Hevents & Hperm).
  exists events. split; [done|]. intros kv Hkv.
  rewrite Hperm. unfold left_join_events.
  apply list_elem_of_In, in_concat. eexists. split.
  - apply in_map_iff. exists s. split; [reflexivity|].
    by apply list_elem_of_In, list_elem_of_filter.
  - by apply list_elem_of_In.
Qed.

(** A stat event whose key does not hold two delimiters fails the
    run. *)
Lemma run_key_raises (suggestion_models : list Suggestion.t)
    (opportunity_models : list Opportunity.t)
    (events : list (string * StatEvent.t)) (k : string) :
  stat_events suggestion_models opportunity_models = Ok events →
  k ∈ map fst events →
  count_char "." k ≠ 2%nat →
  run suggestion_models opportunity_models = Raise ValueError.
Proof.
  intros Hevents Hk Hcount. unfold run, new_user_stats_models.
  rewrite Hevents, res_bind_Ok.
  destruct (CombinePerKey _ _ _ events) as [combined|e] eqn:E.
  - rewrite res_bind_Ok.
    apply CombinePerKey_keys in E.
    rewrite <- elem_of_distinct, <- E in Hk.
    apply list_elem_of_fmap in Hk as ([k' x] & -> & Hin).
    rewrite (res_map_raises _ _ (k', x)); [done| |done|].
    + intros [k'' y] e. unfold _generate_translation_contribution_model.
      repeat case_match; congruence.
    + by apply generate_model_Raise.
  - by rewrite (CombinePerKey_raises _ _ E).
Qed.

(** C10.  [_generate_translation_contribution_model] returns a model
    exactly when its [entity_id] holds two ['.'] and raises
    [ValueError] otherwise; a key with an empty topic,
    [generate_id l c EmptyString], is accepted when [l] and [c] hold
    no ['.']; a key built from a language code, contributor id or
    topic id that holds a ['.'] raises; and a translation proposal
    with such a language code, author id or joined topic id fails the
    run. *)
Theorem model_needs_two_delimiters :
  (∀ entity_id translation,
     (∃ m, _generate_translation_contribution_model entity_id translation
           = Ok m)
     ↔ count_char "." entity_id = 2%nat)
  ∧ (∀ entity_id translation,
       count_char "." entity_id ≠ 2%nat →
       _generate_translation_contribution_model entity_id translation
       = Raise ValueError)
  ∧ (∀ l c translation,
       count_char "." l = 0%nat → count_char "." c = 0%nat →
       ∃ m, _generate_translation_contribution_model
              (StatsModel.generate_id l c EmptyString) translation = Ok m
            ∧ StatsModel.topic_id m = EmptyString)
  ∧ (∀ l c t translation,
       (0 < count_char "." l + count_char "." c + count_char "." t)%nat →
       _generate_translation_contribution_model
         (StatsModel.generate_id l c t) translation
       = Raise ValueError)
  ∧ (∀ suggestion_models opportunity_models s,
       s ∈ suggestion_models →
       Suggestion.suggestion_type s = SUGGESTION_TYPE_TRANSLATE_CONTENT →
       (0 < count_char "." (Suggestion.language_code s)
            + count_char "." (Suggestion.author_id s)
            + count_char "."
                (from_option Opportunity.topic_id EmptyString
                   (first_opportunity_with_id opportunity_models
                      (Suggestion.target_id s))))%nat →
       run suggestion_models opportunity_models = Raise ValueError).
Proof.
  split; [|split; [|split; [|split]]].
  - intros entity_id translation. split.
    + intros [m Hm].
      destruct (decide (count_char "." entity_id = 2%nat)) as [|Hne]; [done|].
      by rewrite generate_model_Raise in Hm.
    + intros Hcount.
      destruct (generate_model_Ok entity_id translation Hcount)
        as (m & Hm & _).
      by exists m.
  - apply generate_model_Raise.
  - intros l c translation Hl Hc.
    destruct (generate_model_Ok (StatsModel.generate_id l c EmptyString)
                translation) as (m & Hm & Hsplit & _).
    { rewrite count_char_generate_id, Hl, Hc. done. }
    exists m. split; [done|].
    rewrite split_generate_id in Hsplit by done. by injection Hsplit.
  - intros l c t translation Hpos. apply generate_model_Raise.
    rewrite count_char_generate_id. lia.
  - intros suggestion_models opportunity_models s Hs Htype Hpos.
    destruct (proposal_event_in suggestion_models opportunity_models s
                Hs Htype) as (events & Hevents & Hin).
    eapply (run_key_raises _ _ events); [exact Hevents| |].
    + apply list_elem_of_fmap. eexists. split; [|apply Hin; left].
      reflexivity.
    + simpl. rewrite count_char_generate_id.
      destruct (first_opportunity_with_id _ _); simpl in *; lia.
Qed.

(** *** More on [CombineStats] *)

Lemma py_sum_app (xs ys : list Z) : py_sum (xs ++ ys) = py_sum xs + py_sum ys.
Proof.
  induction xs as [|x xs IH]; simpl.
  - rewrite py_sum_nil. lia.
  - rewrite !py_sum_cons, IH. lia.
Qed.

Lemma py_sum_perm (xs ys : list Z) : xs ≡ₚ ys → py_sum xs = py_sum ys.
Proof.
  induction 1 as [|x xs ys _ IH|x y xs|xs ys zs _ IH1 _ IH2].
  - done.
  - by rewrite !py_sum_cons, IH.
  - rewrite !py_sum_cons. lia.
  - by rewrite IH1.
Qed.

Lemma strptime_date_valid (s : string) (d : date) :
  strptime_date s = Ok d → valid_date d.
Proof.
  unfold strptime_date, new_date, valid_date.
  repeat case_match; try done. by intros [= <-].
Qed.

(** The fields of a fold, from any accumulator. *)
Lemma res_fold_add_input_fields (a : TranslationContributionStats.t)
    (translations : list StatEvent.t) (dates : list date) :
  res_map (λ t, strptime_date (StatEvent.last_updated_date t)) translations
  = Ok dates →
  ∃ x,
    res_fold add_input a translations = Ok x
    ∧ language_code x = language_code a
    ∧ contributor_user_id x = contributor_user_id a
    ∧ topic_id x = topic_id a
    ∧ submitted_translations_count x
      = submitted_translations_count a + Z.of_nat (length translations)
    ∧ submitted_translation_word_count x
      = submitted_translation_word_count a
        + py_sum (map StatEvent.content_word_count translations)
    ∧ accepted_translations_count x
      = accepted_translations_count a
        + Z.of_nat (length (filter
            (λ t, StatEvent.suggestion_status t = STATUS_ACCEPTED)
            translations))
    ∧ accepted_translations_without_reviewer_edits_count x
      = accepted_translations_without_reviewer_edits_count a
        + Z.of_nat (length (filter
            (λ t, StatEvent.suggestion_status t = STATUS_ACCEPTED
                  ∧ StatEvent.edited_by_reviewer t = false)
            translations))
    ∧ accepted_translation_word_count x
      = accepted_translation_word_count a
        + py_sum (map StatEvent.content_word_count (filter
            (λ t, StatEvent.suggestion_status t = STATUS_ACCEPTED)
            translations))
    ∧ rejected_translations_count x
      = rejected_translations_count a
        + Z.of_nat (length (filter
            (λ t, StatEvent.suggestion_status t = STATUS_REJECTED)
            translations))
    ∧ rejected_translation_word_count x
      = rejected_translation_word_count a
        + py_sum (map StatEvent.content_word_count (filter
            (λ t, StatEvent.suggestion_status t = STATUS_REJECTED)
            translations))
    ∧ contribution_dates x = contribution_dates a ∪ list_to_set dates.
Proof.
  revert a dates. induction translations as [|t ts IH]; intros a dates.
  - simpl. intros [= <-]. exists a. rewrite py_sum_nil. simpl.
    repeat split; try lia. apply set_eq. intros ?. set_unfold. clear. tauto.
  - simpl res_map.
    destruct (strptime_date (StatEvent.last_updated_date t)) as [d|e] eqn:Ed;
      [|done].
    rewrite res_bind_Ok.
    destruct (res_map _ ts) as [ds|e] eqn:Eds; [|done].
    rewrite res_bind_Ok. intros [= <-].
    destruct (IH (add_event a t d) ds eq_refl)
      as (x & Hx & Hl & Hc & Ht & H1 & H2 & H3 & H4 & H5 & H6 & H7 & H8).
    exists x. simpl res_fold. rewrite add_input_unfold, Ed, res_bind_Ok.
    split; [exact Hx|].
    rewrite Hl, Hc, Ht, H1, H2, H3, H4, H5, H6, H7, H8. clear.
    cbn [add_event language_code contributor_user_id topic_id
         submitted_translations_count submitted_translation_word_count
         accepted_translations_count
         accepted_translations_without_reviewer_edits_count
         accepted_translation_word_count rejected_translations_count
         rejected_translation_word_count contribution_dates map length].
    rewrite !py_sum_cons, !filter_cons.
    repeat split.
    + lia.
    + lia.
    + case_bool_decide; case_decide; try done; simpl; lia.
    + case_bool_decide; destruct (StatEvent.edited_by_reviewer t) eqn:Ee;
        case_decide as Hd; simpl;
        try lia; try (exfalso; apply Hd; by split);
        destruct Hd; congruence.
    + case_bool_decide; case_decide; try done; simpl;
        rewrite ?py_sum_cons; lia.
    + case_bool_decide; case_decide; try done; simpl; lia.
    + case_bool_decide; case_decide; try done; simpl;
        rewrite ?py_sum_cons; lia.
    + apply set_eq. intros ?. set_unfold. clear. tauto.
Qed.

(** X1.  When the dates of the events read as [dates], the fold of the
    events into a fresh accumulator has the number of events as its
    submitted count, the sum of their word counts as its submitted
    word count, the number and the word counts of the events with
    status [STATUS_ACCEPTED] as its accepted count and word count, the
    number of those the reviewer did not edit, the number and the word
    counts of the events with status [STATUS_REJECTED], the set of
    [dates] as its contribution dates, and no key field set. *)
Theorem reduce_closed_form (translations : list StatEvent.t)
    (dates : list date) :
  res_map (λ t, strptime_date (StatEvent.last_updated_date t)) translations
  = Ok dates →
  reduce translations
  = Ok (mk None None None
          (Z.of_nat (length translations))
          (py_sum (map StatEvent.content_word_count translations))
          (Z.of_nat (length (filter
             (λ t, StatEvent.suggestion_status t = STATUS_ACCEPTED)
             translations)))
          (Z.of_nat (length (filter
             (λ t, StatEvent.suggestion_status t = STATUS_ACCEPTED
                   ∧ StatEvent.edited_by_reviewer t = false)
             translations)))
          (py_sum (map StatEvent.content_word_count (filter
             (λ t, StatEvent.suggestion_status t = STATUS_ACCEPTED)
             translations)))
          (Z.of_nat (length (filter
             (λ t, StatEvent.suggestion_status t = STATUS_REJECTED)
             translations)))
          (py_sum (map StatEvent.content_word_count (filter
             (λ t, StatEvent.suggestion_status t = STATUS_REJECTED)
             translations)))
          (list_to_set dates)).
Proof.
  intros Hdates.
  destruct (res_fold_add_input_fields create_accumulator translations dates
              Hdates)
    as (x & Hx & Hl & Hc & Ht & H1 & H2 & H3 & H4 & H5 & H6 & H7 & H8).
  unfold reduce. rewrite Hx. f_equal.
  apply stats_eq; cbn [language_code contributor_user_id topic_id
         submitted_translations_count submitted_translation_word_count
         accepted_translations_count
         accepted_translations_without_reviewer_edits_count
         accepted_translation_word_count rejected_translations_count
         rejected_translation_word_count contribution_dates];
    try done; try (rewrite ?H1, ?H2, ?H3, ?H4, ?H5, ?H6, ?H7; simpl; lia).
  rewrite H8. apply set_eq. intros ?. set_unfold. clear. tauto.
Qed.

(** X2.  Folding events into an accumulator is merging that
    accumulator with the fold of the events into a fresh one; when a
    date does not read both raise. *)
Theorem fold_is_merge_of_reduce (a : TranslationContributionStats.t)
    (translations : list StatEvent.t) :
  res_fold add_input a translations
  = (x ← reduce translations; merge_accumulators [a; x]).
Proof.
  rewrite res_fold_from. destruct (reduce translations) as [x|e]; [|done].
  by rewrite !res_bind_Ok, merge_accumulators_cons.
Qed.

Lemma fold_left_combine_assoc (a b : TranslationContributionStats.t)
    (accs : list TranslationContributionStats.t) :
  fold_left combine accs (combine a b) = combine a (fold_left combine accs b).
Proof.
  revert b. induction accs as [|c accs IH]; intros b; simpl; [done|].
  by rewrite combine_assoc, IH.
Qed.

Lemma res_map_merge_accumulators
    (groups : list (list TranslationContributionStats.t)) :
  Forall (λ accs, accs ≠ []) groups →
  ∃ xs, res_map merge_accumulators groups = Ok xs
        ∧ ∀ y, fold_left combine xs y = fold_left combine (concat groups) y.
Proof.
  induction 1 as [|g gs Hg _ (xs & Hxs & IH)]; [by exists []|].
  destruct g as [|b accs]; [done|].
  cbn [res_map concat]. rewrite merge_accumulators_cons, Hxs, !res_bind_Ok.
  eexists. split; [done|].
  intros y. cbn [fold_left app]. rewrite fold_left_app, <- IH.
  f_equal. symmetry. apply fold_left_combine_assoc.
Qed.

(** X3.  Merging accumulators that are themselves merges of non-empty
    lists is merging the concatenation of the lists. *)
Theorem merge_accumulators_flattens
    (groups : list (list TranslationContributionStats.t)) :
  Forall (λ accs, accs ≠ []) groups →
  (xs ← res_map merge_accumulators groups; merge_accumulators xs)
  = merge_accumulators (concat groups).
Proof.
  intros Hne. destruct Hne as [|g gs Hg Hgs]; [done|].
  destruct g as [|a accs]; [done|].
  destruct (res_map_merge_accumulators gs Hgs) as (ys & Hys & Hfold).
  cbn [res_map concat app].
  rewrite merge_accumulators_cons, Hys, !res_bind_Ok.
  rewrite !merge_accumulators_cons, fold_left_app. by rewrite Hfold.
Qed.

(** X4.  The counters and the contribution dates of a merge do not
    depend on the order of the accumulators; the language, contributor
    and topic are those of the accumulator that comes first. *)
Theorem merge_accumulators_permutation
    (accs1 accs2 : list TranslationContributionStats.t) :
  accs1 ≡ₚ accs2 →
  accs1 ≠ [] →
  ∃ x y,
    merge_accumulators accs1 = Ok x
    ∧ merge_accumulators accs2 = Ok y
    ∧ submitted_translations_count x = submitted_translations_count y
    ∧ submitted_translation_word_count x = submitted_translation_word_count y
    ∧ accepted_translations_count x = accepted_translations_count y
    ∧ accepted_translations_without_reviewer_edits_count x
      = accepted_translations_without_reviewer_edits_count y
    ∧ accepted_translation_word_count x = accepted_translation_word_count y
    ∧ rejected_translations_count x = rejected_translations_count y
    ∧ rejected_translation_word_count x = rejected_translation_word_count y
    ∧ contribution_dates x = contribution_dates y
    ∧ (∀ a, head accs1 = Some a →
            language_code x = language_code a
            ∧ contributor_user_id x = contributor_user_id a
            ∧ topic_id x = topic_id a).
Proof.
  intros Hperm Hne.
  destruct accs1 as [|a1 l1]; [done|].
  destruct accs2 as [|a2 l2]; [by apply Permutation_nil_r in Hperm|].
  unfold merge_accumulators. cbn [first]. rewrite !res_bind_Ok.
  eexists _, _. split; [reflexivity|]. split; [reflexivity|].
  cbn [language_code contributor_user_id topic_id
       submitted_translations_count submitted_translation_word_count
       accepted_translations_count
       accepted_translations_without_reviewer_edits_count
       accepted_translation_word_count rejected_translations_count
       rejected_translation_word_count contribution_dates].
  repeat split.
  1-7: by apply py_sum_perm, Permutation_map.
  - apply leibniz_equiv. apply union_list_permutation_proper.
    by apply Permutation_map.
  - by injection H as <-.
  - by injection H as <-.
  - by injection H as <-.
Qed.

(** X5.  The fresh accumulator is a right identity of the merge for
    every accumulator, and a left identity exactly for the
    accumulators whose language, contributor and topic are not set. *)
Theorem merge_accumulators_identity (x : TranslationContributionStats.t) :
  merge_accumulators [x; create_accumulator] = Ok x
  ∧ (merge_accumulators [create_accumulator; x] = Ok x
     ↔ language_code x = None ∧ contributor_user_id x = None
       ∧ topic_id x = None).
Proof.
  rewrite !merge_accumulators_cons. cbn [fold_left]. split.
  - f_equal. apply combine_create_default.
  - split.
    + intros [= Hx]. rewrite <- Hx. done.
    + intros (Hl & Hc & Ht). f_equal. stats_ext; by symmetry.
Qed.

(** Induction on the reachable accumulators, with the merge taken two
    accumulators at a time. *)
Lemma reachable_ind_combine (P : TranslationContributionStats.t → Prop) :
  P create_accumulator →
  (∀ a t d,
     P a → 0 ≤ StatEvent.content_word_count t →
     strptime_date (StatEvent.last_updated_date t) = Ok d →
     P (add_event a t d)) →
  (∀ a b, P a → P b → P (combine a b)) →
  ∀ x, reachable x → P x.
Proof.
  intros Hcreate Hadd Hcombine x Hx.
  induction Hx as [|acc t acc' _ IH Hw Hacc|accs acc _ IH Hmerge].
  - exact Hcreate.
  - rewrite add_input_unfold in Hacc.
    destruct (strptime_date (StatEvent.last_updated_date t)) as [d|e] eqn:Ed;
      simpl in Hacc; [|done].
    injection Hacc as <-. by apply Hadd.
  - destruct accs as [|a accs]; [done|].
    rewrite merge_accumulators_cons in Hmerge. injection Hmerge as <-.
    assert (P a) as Ha by (apply IH; left).
    assert (∀ b, b ∈ accs → P b) as Hall by (intros b Hb; apply IH; by right).
    clear IH. revert a Ha.
    induction accs as [|b accs IHaccs]; intros a Ha; simpl; [done|].
    apply IHaccs.
    + intros c Hc. apply Hall. by right.
    + apply Hcombine; [done|]. apply Hall. left.
Qed.

(** X6.  A reachable accumulator has a submitted count of zero
    exactly when it is the fresh accumulator, and no contribution
    date exactly when its submitted count is zero. *)
Theorem reachable_empty_iff (x : TranslationContributionStats.t) :
  reachable x →
  (submitted_translations_count x = 0 ↔ x = create_accumulator)
  ∧ (contribution_dates x = ∅ ↔ submitted_translations_count x = 0).
Proof.
  intros Hx.
  assert (0 ≤ submitted_translations_count x
          ∧ (submitted_translations_count x = 0 → x = create_accumulator)
          ∧ (0 < submitted_translations_count x → contribution_dates x ≠ ∅))
    as (Hpos & Hzero & Hdates).
  { induction Hx as [|a t d (Ha & _ & _) _ _|a b (Ha & Ha0 & Had) (Hb & Hb0 & Hbd)]
      using reachable_ind_combine.
    - split; [done|]. split; [done|]. simpl. lia.
    - cbn [add_event submitted_translations_count contribution_dates].
      split; [lia|]. split; [lia|]. intros _ Hempty.
      apply (not_elem_of_empty (C:=gset date) d). rewrite <- Hempty.
      apply elem_of_union_r, elem_of_singleton. done.
    - cbn [combine submitted_translations_count contribution_dates].
      split; [lia|]. split.
      + intros Hsum. rewrite (Ha0 ltac:(lia)), (Hb0 ltac:(lia)).
        apply combine_create_default.
      + intros Hsum Hempty. apply empty_union_L in Hempty as [Hea Heb].
        destruct (decide (0 < submitted_translations_count a)) as [Hlt|Hge].
        * by apply Had.
        * apply Hbd; [lia | done]. }
  split; [split; [done | by intros ->]|]. split.
  - intros Hempty.
    destruct (decide (submitted_translations_count x = 0)) as [|Hne]; [done|].
    destruct Hdates; [lia | done].
  - intros Hs. by rewrite (Hzero Hs).
Qed.

(** X7.  A reachable accumulator has no language, contributor or topic
    set, and every one of its contribution dates is a date of the
    calendar. *)
Theorem reachable_keys_and_dates (x : TranslationContributionStats.t) :
  reachable x →
  language_code x = None ∧ contributor_user_id x = None ∧ topic_id x = None
  ∧ ∀ d, d ∈ contribution_dates x → valid_date d.
Proof.
  intros Hx.
  induction Hx as [|a t d (Hl & Hc & Ht & Hd) _ Hparse
                  |a b (Hl & Hc & Ht & Hd) (_ & _ & _ & Hd')]
    using reachable_ind_combine.
  - repeat split. intros d Hd. by apply not_elem_of_empty in Hd.
  - repeat split; try done.
    cbn [add_event contribution_dates]. intros d' Hd'.
    apply elem_of_union in Hd' as [Hd'|Hd']; [by apply Hd|].
    apply elem_of_singleton in Hd' as ->.
    by apply (strptime_date_valid _ _ Hparse).
  - repeat split; try done.
    cbn [combine contribution_dates]. intros d Hin.
    apply elem_of_union in Hin as [Hin|Hin]; [by apply Hd | by apply Hd'].
Qed.

(** X8.  With two distinct status constants, a reachable accumulator
    has no more accepted and rejected words together than submitted
    words, no accepted words when its accepted count is zero, and no
    rejected words when its rejected count is zero. *)
Theorem reachable_word_counts (x : TranslationContributionStats.t) :
  STATUS_ACCEPTED ≠ STATUS_REJECTED →
  reachable x →
  accepted_translation_word_count x + rejected_translation_word_count x
  ≤ submitted_translation_word_count x
  ∧ (accepted_translations_count x = 0 →
     accepted_translation_word_count x = 0)
  ∧ (rejected_translations_count x = 0 →
     rejected_translation_word_count x = 0).
Proof.
  intros Hne Hx.
  assert (0 ≤ accepted_translations_count x
          ∧ 0 ≤ rejected_translations_count x
          ∧ accepted_translation_word_count x
            + rejected_translation_word_count x
            ≤ submitted_translation_word_count x
          ∧ (accepted_translations_count x = 0 →
             accepted_translation_word_count x = 0)
          ∧ (rejected_translations_count x = 0 →
             rejected_translation_word_count x = 0)) as (_ & _ & H); [|exact H].
  induction Hx as [|a t d (Ha & Hr & Hw & Ha0 & Hr0) Hwc _
                  |a b (Ha & Hr & Hw & Ha0 & Hr0) (Hb & Hs & Hw' & Hb0 & Hs0)]
    using reachable_ind_combine.
  - simpl. lia.
  - cbn [add_event accepted_translations_count rejected_translations_count
         accepted_translation_word_count rejected_translation_word_count
         submitted_translation_word_count].
    repeat case_bool_decide; try congruence; cbn [Z.b2z];
      repeat split; try lia; intros; try lia.
    all: nia.
  - cbn [combine accepted_translations_count rejected_translations_count
         accepted_translation_word_count rejected_translation_word_count
         submitted_translation_word_count].
    repeat split; lia.
Qed.

(** X9.  The event [_generate_stats] derives from a proposal carries
    the proposal's date without its time of day: when the event is
    folded, [add_input] adds exactly the date of [last_updated] to the
    contribution dates. *)
Theorem generated_event_adds_its_date (s : Suggestion.t)
    (opportunity : option Opportunity.t)
    (acc : TranslationContributionStats.t) (k : string)
    (translation : StatEvent.t) :
  valid_date (datetime.date_part (Suggestion.last_updated s)) →
  (k, translation) ∈ _generate_stats [s] opportunity →
  ∃ acc',
    add_input acc translation = Ok acc'
    ∧ contribution_dates acc'
      = contribution_dates acc
        ∪ {[ datetime.date_part (Suggestion.last_updated s) ]}.
Proof.
  intros Hvalid Hin. apply list_elem_of_singleton in Hin.
  injection Hin as -> ->.
  rewrite add_input_unfold. cbn [StatEvent.last_updated_date].
  rewrite (strptime_isoformat _ Hvalid), res_bind_Ok.
  eexists. split; reflexivity.
Qed.

(** *** More on the job *)

Lemma res_map_raise_inv {A B : Type} (f : A → res B) (l : list A) (e : exn) :
  (∀ x e', f x = Raise e' → e' = ValueError) →
  res_map f l = Raise e → e = ValueError.
Proof.
  intros Hf. induction l as [|x l IH]; simpl; [done|].
  destruct (f x) as [y|e'] eqn:Ex; simpl.
  - destruct (res_map f l) as [ys|e']; simpl; [done|].
    intros [= <-]. by apply IH.
  - intros [= <-]. by apply (Hf x).
Qed.

Lemma res_map_Ok_Forall2 {A B : Type} (f : A → res B) (l : list A)
    (ys : list B) :
  res_map f l = Ok ys → Forall2 (λ x y, f x = Ok y) l ys.
Proof.
  revert ys. induction l as [|x l IH]; intros ys; simpl.
  - intros [= <-]. constructor.
  - destruct (f x) as [y|e] eqn:Ex; simpl; [|done].
    destruct (res_map f l) as [ys'|e]; simpl; [|done].
    intros [= <-]. constructor; [done | by apply IH].
Qed.

Lemma generate_model_raises (entity_id : string)
    (translation : TranslationContributionStats.t) (e : exn) :
  _generate_translation_contribution_model entity_id translation = Raise e →
  e = ValueError.
Proof.
  unfold _generate_translation_contribution_model.
  repeat case_match; congruence.
Qed.

(** X10.  The run raises nothing but [ValueError]: the indexing
    [list(x['opportunity'][0])[0]] of the join never fails, because a
    group of [GroupBy] is never empty. *)
Theorem run_raises_only_ValueError (suggestion_models : list Suggestion.t)
    (opportunity_models : list Opportunity.t) (e : exn) :
  run suggestion_models opportunity_models = Raise e →
  e = ValueError
  ∧ ∃ events,
      stat_events suggestion_models opportunity_models = Ok events.
Proof.
  intros Hrun. split; [|eexists; apply stat_events_eq].
  unfold run, new_user_stats_models in Hrun.
  rewrite stat_events_eq, res_bind_Ok in Hrun.
  destruct (CombinePerKey _ _ _ _) as [combined|e1] eqn:Ecombined.
  - rewrite res_bind_Ok in Hrun.
    destruct (res_map _ combined) as [models|e2] eqn:Emodels; [done|].
    injection Hrun as <-.
    apply (res_map_raise_inv _ _ _ (λ kv e', generate_model_raises _ _ e'))
      in Emodels.
    done.
  - injection Hrun as <-. by apply CombinePerKey_raises in Ecombined.
Qed.

Lemma join_split (sep : ascii) (s : string) :
  join (String sep EmptyString) (split sep s) = s.
Proof.
  induction s as [|c s IH]; [done|]. cbn [split].
  destruct (Ascii.eqb c sep) eqn:Ec.
  - apply Ascii.eqb_eq in Ec as ->.
    destruct (split sep s) as [|w ws] eqn:Es.
    + pose proof (split_length sep s) as Hlen. by rewrite Es in Hlen.
    + change (join (String sep EmptyString) (EmptyString :: w :: ws))
        with (String sep (join (String sep EmptyString) (w :: ws))).
      by rewrite IH.
  - destruct (split sep s) as [|w ws] eqn:Es.
    + pose proof (split_length sep s) as Hlen. by rewrite Es in Hlen.
    + destruct ws as [|w' ws].
      * cbn [join] in *. by rewrite IH.
      * change (join (String sep EmptyString) (String c w :: w' :: ws))
          with (String c (join (String sep EmptyString) (w :: w' :: ws))).
        by rewrite IH.
Qed.

Lemma split_pieces (sep : ascii) (s : string) :
  Forall (λ w, count_char sep w = 0%nat) (split sep s).
Proof.
  induction s as [|c s IH]; [by repeat constructor|]. cbn [split].
  destruct (Ascii.eqb c sep) eqn:Ec; [by constructor|].
  destruct (split sep s) as [|w ws]; [repeat constructor; simpl; by rewrite Ec|].
  apply Forall_cons in IH as [Hw Hws]. constructor; [|done].
  simpl. by rewrite Ec.
Qed.

(** X11.  A model [_generate_translation_contribution_model] returns
    has the entity id as its id, the same counters and contribution
    dates as the accumulator, and key fields that hold no ['.'] and
    that [generate_id] joins back into the entity id. *)
Theorem generated_model_fields (entity_id : string)
    (translation : TranslationContributionStats.t) (m : StatsModel.t) :
  _generate_translation_contribution_model entity_id translation = Ok m →
  StatsModel.id m = entity_id
  ∧ StatsModel.generate_id (StatsModel.language_code m)
      (StatsModel.contributor_user_id m) (StatsModel.topic_id m)
    = entity_id
  ∧ count_char "." (StatsModel.language_code m) = 0%nat
  ∧ count_char "." (StatsModel.contributor_user_id m) = 0%nat
  ∧ count_char "." (StatsModel.topic_id m) = 0%nat
  ∧ StatsModel.submitted_translations_count m
    = submitted_translations_count translation
  ∧ StatsModel.submitted_translation_word_count m
    = submitted_translation_word_count translation
  ∧ StatsModel.accepted_translations_count m
    = accepted_translations_count translation
  ∧ StatsModel.accepted_translations_without_reviewer_edits_count m
    = accepted_translations_without_reviewer_edits_count translation
  ∧ StatsModel.accepted_translation_word_count m
    = accepted_translation_word_count translation
  ∧ StatsModel.rejected_translations_count m
    = rejected_translations_count translation
  ∧ StatsModel.rejected_translation_word_count m
    = rejected_translation_word_count translation
  ∧ StatsModel.contribution_dates m = contribution_dates translation.
Proof.
  unfold _generate_translation_contribution_model.
  pose proof (join_split "." entity_id) as Hjoin.
  pose proof (split_pieces "." entity_id) as Hpieces.
  destruct (split "." entity_id) as [|a [|b [|c [|]]]]; try done.
  intros [= <-]. cbn.
  apply Forall_cons in Hpieces as [Ha Hpieces].
  apply Forall_cons in Hpieces as [Hb Hpieces].
  apply Forall_cons in Hpieces as [Hc _].
  repeat split; done || exact Hjoin.
Qed.

(** X12.  The models of a run that completes have pairwise distinct
    ids, each with exactly two ['.']: there is one model for a key. *)
Theorem run_models_have_distinct_ids (suggestion_models : list Suggestion.t)
    (opportunity_models : list Opportunity.t) (models : list StatsModel.t)
    (results : list JobRunResult.t) :
  run suggestion_models opportunity_models = Ok (models, results) →
  NoDup (map StatsModel.id models)
  ∧ Forall (λ m, count_char "." (StatsModel.id m) = 2%nat) models.
Proof.
  unfold run, new_user_stats_models. intros Hrun.
  destruct (stat_events _ _) as [events|e]; [|done].
  rewrite res_bind_Ok in Hrun.
  destruct (CombinePerKey _ _ _ events) as [combined|e] eqn:Ecombined; [|done].
  rewrite res_bind_Ok in Hrun.
  destruct (res_map _ combined) as [ms|e] eqn:Emodels; [|done].
  injection Hrun as <- <-.
  apply CombinePerKey_keys in Ecombined.
  apply res_map_Ok_Forall2 in Emodels.
  assert (map StatsModel.id ms = map fst combined) as Hids.
  { clear Ecombined. induction Emodels as [|kv m kvs ms' Hm _ IH]; [done|].
    simpl. rewrite IH. f_equal.
    unfold _generate_translation_contribution_model in Hm.
    repeat case_match; try done. by injection Hm as <-. }
  split.
  - rewrite Hids, Ecombined. apply NoDup_distinct.
  - clear Hids Ecombined.
    induction Emodels as [|kv m kvs ms' Hm _ IH]; constructor; [|done].
    destruct (decide (count_char "." kv.1 = 2%nat)) as [Hc|Hc].
    + destruct (generate_model_Ok kv.1 kv.2 Hc) as (m' & Hm' & _ & Hid).
      rewrite Hm in Hm'. injection Hm' as <-. by rewrite Hid.
    + by rewrite generate_model_Raise in Hm.
Qed.

Lemma filter_all {A : Type} (P : A → Prop) `{∀ x, Decision (P x)}
    (l : list A) :
  (∀ x, x ∈ l → P x) → filter P l = l.
Proof.
  induction l as [|x l IH]; intros HP; [done|].
  rewrite filter_cons_True by (apply HP; left).
  f_equal. apply IH. intros y Hy. apply HP. by right.
Qed.

Lemma distinct_app (ks1 ks2 : list string) :
  distinct (ks1 ++ ks2)
  = (distinct ks1 ++ filter (λ k, k ∉ ks1) (distinct ks2))%list.
Proof.
  induction ks1 as [|k ks1 IH]; simpl.
  - symmetry. apply filter_all. intros k _. apply not_elem_of_nil.
  - f_equal. rewrite IH, filter_app. f_equal.
    rewrite list_filter_filter. apply list_filter_iff.
    intros k'. rewrite not_elem_of_cons. done.
Qed.

Lemma concat_map_nil {A B : Type} (F : A → list B) (l : list A) :
  (∀ x, x ∈ l → F x = []) → concat (map F l) = [].
Proof.
  induction l as [|x l IH]; intros HF; simpl; [done|].
  rewrite (HF x) by left. apply IH. intros y Hy. apply HF. by right.
Qed.

(** The stat events, target after target. *)
Lemma stat_events_by_target (suggestion_models : list Suggestion.t)
    (opportunity_models : list Opportunity.t) :
  let suggestions :=
    filter (λ m, Suggestion.suggestion_type m
                 = SUGGESTION_TYPE_TRANSLATE_CONTENT) suggestion_models in
  stat_events suggestion_models opportunity_models
  = Ok (concat
          (map (λ k, _generate_stats
                       (filter (λ s, Suggestion.target_id s = k) suggestions)
                       (first_opportunity_with_id opportunity_models k))
             (distinct (map Suggestion.target_id suggestions)))).
Proof.
  intros suggestions. rewrite stat_events_eq. fold suggestions.
  unfold join_keys. f_equal.
  rewrite distinct_app, distinct_idemp, map_app, concat_app.
  rewrite (concat_map_nil _ (filter _ _)); [by rewrite app_nil_r|].
  intros k Hk. apply list_elem_of_filter in Hk as [Hk _].
  rewrite elem_of_distinct in Hk.
  by rewrite (filter_key_nil Suggestion.target_id suggestions k Hk).
Qed.

(** X13.  Proposals of another type than translation content have no
    part in the run, and neither have the opportunities that no
    translation proposal targets. *)
Theorem run_ignores_what_is_not_joined (suggestion_models : list Suggestion.t)
    (opportunity_models : list Opportunity.t) :
  let suggestions :=
    filter (λ m, Suggestion.suggestion_type m
                 = SUGGESTION_TYPE_TRANSLATE_CONTENT) suggestion_models in
  run suggestion_models opportunity_models
  = run suggestions opportunity_models
  ∧ run suggestion_models opportunity_models
    = run suggestion_models
        (filter (λ o, Opportunity.id o ∈ map Suggestion.target_id suggestions)
           opportunity_models).
Proof.
  intros suggestions. split.
  - unfold run, new_user_stats_models, stat_events. subst suggestions.
    by rewrite list_filter_filter_l by done.
  - unfold run, new_user_stats_models. rewrite !stat_events_by_target.
    fold suggestions. do 4 f_equal.
    apply map_ext_in. intros k Hk. f_equal.
    apply list_elem_of_In in Hk. rewrite elem_of_distinct in Hk.
    unfold first_opportunity_with_id. f_equal. symmetry.
    apply list_filter_filter_l. by intros o ->.
Qed.

Lemma res_fold_add_input_Ok_dates (a x : TranslationContributionStats.t)
    (translations : list StatEvent.t) :
  res_fold add_input a translations = Ok x →
  ∃ dates,
    res_map (λ t, strptime_date (StatEvent.last_updated_date t)) translations
    = Ok dates.
Proof.
  revert a. induction translations as [|t ts IH]; intros a; simpl.
  - by eexists.
  - rewrite add_input_unfold.
    destruct (strptime_date (StatEvent.last_updated_date t)) as [d|e];
      simpl; [|done].
    intros Hx. destruct (IH _ Hx) as [ds ->]. by eexists.
Qed.

Lemma fold_left_combine_counts (a : TranslationContributionStats.t)
    (accs : list TranslationContributionStats.t) :
  submitted_translations_count (fold_left combine accs a)
  = submitted_translations_count a
    + py_sum (map submitted_translations_count accs)
  ∧ submitted_translation_word_count (fold_left combine accs a)
    = submitted_translation_word_count a
      + py_sum (map submitted_translation_word_count accs)
  ∧ accepted_translations_count (fold_left combine accs a)
    = accepted_translations_count a
      + py_sum (map accepted_translations_count accs)
  ∧ rejected_translations_count (fold_left combine accs a)
    = rejected_translations_count a
      + py_sum (map rejected_translations_count accs).
Proof.
  revert a. induction accs as [|b accs IH]; intros a; simpl.
  - rewrite py_sum_nil. lia.
  - destruct (IH (combine a b)) as (-> & -> & -> & ->).
    rewrite !py_sum_cons. simpl. lia.
Qed.

Lemma length_filter_map {A B : Type} (g : A → B) (P : B → Prop)
    `{∀ y, Decision (P y)} (l : list A) :
  length (filter P (map g l)) = length (filter (λ x, P (g x)) l).
Proof.
  induction l as [|x l IH]; [done|]. simpl map.
  rewrite !filter_cons. destruct (decide (P (g x))); simpl; by rewrite IH.
Qed.

Lemma left_join_events_snd (suggestion_models : list Suggestion.t)
    (opportunity_models : list Opportunity.t) :
  map snd (left_join_events suggestion_models opportunity_models)
  = map snd
      (_generate_stats
         (filter (λ m, Suggestion.suggestion_type m
                       = SUGGESTION_TYPE_TRANSLATE_CONTENT) suggestion_models)
         None).
Proof.
  unfold left_join_events.
  match goal with
  | |- context [filter ?P suggestion_models] =>
      generalize (filter P suggestion_models)
  end.
  intros l. induction l as [|s l IH]; [done|].
  cbn [map concat]. rewrite map_app, IH. done.
Qed.

Lemma CombinePerKey_accumulators (events : list (string * StatEvent.t))
    (combined : list (string * TranslationContributionStats.t)) :
  CombinePerKey create_accumulator add_input extract_output events
  = Ok combined →
  res_map reduce
    (map (λ k, values_for k events) (distinct (map fst events)))
  = Ok (map snd combined).
Proof.
  unfold CombinePerKey. generalize (distinct (map fst events)) as ks.
  intros ks. revert combined.
  induction ks as [|k ks IH]; intros combined; simpl.
  - by intros [= <-].
  - fold (reduce (values_for k events)).
    destruct (reduce (values_for k events)) as [x|e]; simpl; [|done].
    destruct (res_map _ ks) as [kvs|e]; simpl; [|done].
    intros [= <-]. by rewrite (IH kvs eq_refl).
Qed.

(** The accumulators of the keys, merged, are the fold of all the
    events. *)
Lemma CombinePerKey_total (events : list (string * StatEvent.t))
    (combined : list (string * TranslationContributionStats.t)) :
  CombinePerKey create_accumulator add_input extract_output events
  = Ok combined →
  reduce (map snd events)
  = Ok (fold_left combine (map snd combined) create_accumulator).
Proof.
  intros Hcombined. apply CombinePerKey_accumulators in Hcombined.
  assert (concat (map (λ k, values_for k events) (distinct (map fst events)))
          ≡ₚ map snd events) as Hperm.
  { unfold values_for.
    rewrite <- (map_map (λ k, filter (λ kv, kv.1 = k) events) (map snd)).
    rewrite <- concat_map. apply Permutation_map.
    apply (concat_groups_perm fst); [apply NoDup_distinct|].
    intros kv Hkv. apply elem_of_distinct. by apply list_elem_of_fmap_2. }
  unfold reduce at 1.
  rewrite <- (res_fold_add_input_perm _ _ _ Hperm), res_fold_concat.
  by rewrite Hcombined.
Qed.

Lemma generate_stats_events (suggestions : list Suggestion.t)
    (status : string) :
  length (map snd (_generate_stats suggestions None)) = length suggestions
  ∧ map StatEvent.content_word_count
      (map snd (_generate_stats suggestions None))
    = map (λ s, count_words (strip_html_tags (Suggestion.content_html s)))
        suggestions
  ∧ length (filter (λ t, StatEvent.suggestion_status t = status)
              (map snd (_generate_stats suggestions None)))
    = length (filter (λ s, Suggestion.status s = status) suggestions).
Proof.
  induction suggestions as [|s ss (IH1 & IH2 & IH3)]; [done|].
  change (_generate_stats (s :: ss) None)
    with ((_generate_stats [s] None ++ _generate_stats ss None)%list).
  rewrite !map_app, length_app, filter_app, length_app, IH1, IH2, IH3.
  split; [done|]. split; [done|].
  rewrite (filter_cons _ s). cbn [_generate_stats map snd].
  rewrite filter_cons, filter_nil. cbn [StatEvent.suggestion_status].
  by destruct (decide (Suggestion.status s = status)).
Qed.

(** X14.  The models of a run that completes count every translation
    proposal once: over all models, the submitted counts add up to the
    number of translation proposals, the submitted word counts to the
    words of their stripped contents, and the accepted and rejected
    counts to the numbers of proposals with the accepted and the
    rejected status. *)
Theorem run_counts_every_proposal_once (suggestion_models : list Suggestion.t)
    (opportunity_models : list Opportunity.t) (models : list StatsModel.t)
    (results : list JobRunResult.t) :
  let suggestions :=
    filter (λ m, Suggestion.suggestion_type m
                 = SUGGESTION_TYPE_TRANSLATE_CONTENT) suggestion_models in
  run suggestion_models opportunity_models = Ok (models, results) →
  py_sum (map StatsModel.submitted_translations_count models)
  = Z.of_nat (length suggestions)
  ∧ py_sum (map StatsModel.submitted_translation_word_count models)
    = py_sum (map (λ s, count_words
                          (strip_html_tags (Suggestion.content_html s)))
                suggestions)
  ∧ py_sum (map StatsModel.accepted_translations_count models)
    = Z.of_nat (length (filter (λ s, Suggestion.status s = STATUS_ACCEPTED)
                          suggestions))
  ∧ py_sum (map StatsModel.rejected_translations_count models)
    = Z.of_nat (length (filter (λ s, Suggestion.status s = STATUS_REJECTED)
                          suggestions)).
Proof.
  intros suggestions. unfold run, new_user_stats_models. intros Hrun.
  destruct (stat_events_left_join suggestion_models opportunity_models)
    as (events & Hevents & Hperm).
  rewrite Hevents, res_bind_Ok in Hrun.
  destruct (CombinePerKey _ _ _ events) as [combined|e] eqn:Ecombined; [|done].
  rewrite res_bind_Ok in Hrun.
  destruct (res_map _ combined) as [ms|e] eqn:Emodels; [|done].
  injection Hrun as <- <-.
  apply res_map_Ok_Forall2 in Emodels.
  assert (map StatsModel.submitted_translations_count ms
          = map submitted_translations_count (map snd combined)
          ∧ map StatsModel.submitted_translation_word_count ms
            = map submitted_translation_word_count (map snd combined)
          ∧ map StatsModel.accepted_translations_count ms
            = map accepted_translations_count (map snd combined)
          ∧ map StatsModel.rejected_translations_count ms
            = map rejected_translations_count (map snd combined))
    as (-> & -> & -> & ->).
  { clear Ecombined.
    induction Emodels as [|kv m kvs ms' Hm _ IH]; [done|].
    destruct IH as (IH1 & IH2 & IH3 & IH4).
    simpl. rewrite IH1, IH2, IH3, IH4.
    unfold _generate_translation_contribution_model in Hm.
    repeat case_match; try done. by injection Hm as <-. }
  apply CombinePerKey_total in Ecombined.
  apply (Permutation_map snd) in Hperm.
  unfold reduce in Ecombined.
  rewrite (res_fold_add_input_perm _ _ _ Hperm), left_join_events_snd
    in Ecombined.
  fold suggestions in Ecombined.
  destruct (res_fold_add_input_Ok_dates _ _ _ Ecombined) as [dates Hdates].
  destruct (res_fold_add_input_fields create_accumulator _ _ Hdates)
    as (x & Hx & _ & _ & _ & H1 & H2 & H3 & _ & _ & H6 & _).
  rewrite Ecombined in Hx. injection Hx as <-.
  destruct (fold_left_combine_counts create_accumulator (map snd combined))
    as (F1 & F2 & F3 & F4).
  rewrite F1 in H1. rewrite F2 in H2. rewrite F3 in H3. rewrite F4 in H6.
  clear F1 F2 F3 F4 Ecombined Hdates.
  destruct (generate_stats_events suggestions STATUS_ACCEPTED)
    as (G1 & G2 & G3).
  destruct (generate_stats_events suggestions STATUS_REJECTED)
    as (_ & _ & G4).
  rewrite G1 in H1. rewrite G2 in H2. rewrite G3 in H3. rewrite G4 in H6.
  cbn [create_accumulator create_default submitted_translations_count
       submitted_translation_word_count accepted_translations_count
       rejected_translations_count] in H1, H2, H3, H6.
  split; [lia|]. split; [lia|]. split; lia.
Qed.

(** *** Order of the input *)

Lemma res_map_perm {A B : Type} (f : A → res B) (l1 l2 : list A) :
  (∀ x e, f x = Raise e → e = ValueError) →
  l1 ≡ₚ l2 →
  (res_map f l1 = Raise ValueError ∧ res_map f l2 = Raise ValueError)
  ∨ (∃ ys1 ys2,
       res_map f l1 = Ok ys1 ∧ res_map f l2 = Ok ys2 ∧ ys1 ≡ₚ ys2).
Proof.
  intros Hf Hperm.
  induction Hperm as [|x l1 l2 _ IH|x y l|l1 l2 l3 _ IH1 _ IH2].
  - right. by exists [], [].
  - simpl. destruct (f x) as [b|e] eqn:Ex.
    + destruct IH as [[-> ->]|(ys1 & ys2 & -> & -> & Hys)].
      * by left.
      * right. exists (b :: ys1), (b :: ys2).
        split; [done|]. split; [done|]. by apply perm_skip.
    + left. by rewrite (Hf _ _ Ex).
  - simpl.
    destruct (f x) as [b|e] eqn:Ex, (f y) as [c|e'] eqn:Ey;
      rewrite ?(Hf _ _ Ex), ?(Hf _ _ Ey); simpl; try by left.
    destruct (res_map f l) as [ys|e] eqn:El.
    + right. exists (c :: b :: ys), (b :: c :: ys).
      split; [done|]. split; [done|]. apply perm_swap.
    + left. by rewrite (res_map_raise_inv _ _ _ Hf El).
  - destruct IH1 as [[H1 H2]|(ys1 & ys2 & H1 & H2 & Hys)],
             IH2 as [[H2' H3]|(ys2' & ys3 & H2' & H3 & Hys')].
    + by left.
    + congruence.
    + congruence.
    + right. exists ys1, ys3. split; [done|]. split; [done|].
      rewrite H2 in H2'. injection H2' as <-. by etrans.
Qed.

Lemma values_for_perm {V : Type} (k : string) (kvs1 kvs2 : list (string * V)) :
  kvs1 ≡ₚ kvs2 → values_for k kvs1 ≡ₚ values_for k kvs2.
Proof.
  intros Hperm. unfold values_for. apply Permutation_map.
  by apply filter_Permutation.
Qed.

Lemma distinct_perm (ks1 ks2 : list string) :
  ks1 ≡ₚ ks2 → distinct ks1 ≡ₚ distinct ks2.
Proof.
  intros Hperm. apply NoDup_Permutation; try apply NoDup_distinct.
  intros k. rewrite !elem_of_distinct. by rewrite Hperm.
Qed.

Lemma CombinePerKey_perm (events1 events2 : list (string * StatEvent.t)) :
  events1 ≡ₚ events2 →
  (CombinePerKey create_accumulator add_input extract_output events1
   = Raise ValueError
   ∧ CombinePerKey create_accumulator add_input extract_output events2
     = Raise ValueError)
  ∨ (∃ combined1 combined2,
       CombinePerKey create_accumulator add_input extract_output events1
       = Ok combined1
       ∧ CombinePerKey create_accumulator add_input extract_output events2
         = Ok combined2
       ∧ combined1 ≡ₚ combined2).
Proof.
  intros Hperm. unfold CombinePerKey.
  rewrite (res_map_ext_Forall
             (λ k, acc ← res_fold add_input create_accumulator
                            (values_for k events1);
                   Ok (k, extract_output acc))
             (λ k, acc ← res_fold add_input create_accumulator
                            (values_for k events2);
                   Ok (k, extract_output acc))).
  - apply res_map_perm.
    + intros k e.
      destruct (res_fold _ _ _) as [x|e'] eqn:Ek; simpl; [done|].
      intros [= <-]. by apply res_fold_add_input_raises in Ek.
    + apply distinct_perm. by apply Permutation_map.
  - apply Forall_forall. intros k _.
    by rewrite (res_fold_add_input_perm _ _ _ (values_for_perm k _ _ Hperm)).
Qed.

Lemma left_join_events_perm (suggestions1 suggestions2 : list Suggestion.t)
    (opportunity_models : list Opportunity.t) :
  suggestions1 ≡ₚ suggestions2 →
  left_join_events suggestions1 opportunity_models
  ≡ₚ left_join_events suggestions2 opportunity_models.
Proof.
  intros Hperm. unfold left_join_events.
  rewrite <- !flat_map_concat_map. apply Permutation_flat_map.
  by apply filter_Permutation.
Qed.

Lemma job_run_results_perm (models1 models2 : list StatsModel.t) :
  models1 ≡ₚ models2 → job_run_results models1 = job_run_results models2.
Proof.
  intros Hperm. rewrite !job_run_results_eq.
  pose proof (Permutation_length Hperm) as Hlen.
  destruct models1, models2; try done. by rewrite Hlen.
Qed.

(** X15.  The order of the proposals does not matter: on a
    permutation of the proposals the run raises again, or completes
    again with the same results and the same models in some order. *)
Theorem run_order_of_suggestions (suggestions1 suggestions2 : list Suggestion.t)
    (opportunity_models : list Opportunity.t) :
  suggestions1 ≡ₚ suggestions2 →
  (run suggestions1 opportunity_models = Raise ValueError
   ∧ run suggestions2 opportunity_models = Raise ValueError)
  ∨ (∃ models1 models2 results,
       run suggestions1 opportunity_models = Ok (models1, results)
       ∧ run suggestions2 opportunity_models = Ok (models2, results)
       ∧ models1 ≡ₚ models2).
Proof.
  intros Hperm. unfold run, new_user_stats_models.
  destruct (stat_events_left_join suggestions1 opportunity_models)
    as (events1 & -> & Hev1).
  destruct (stat_events_left_join suggestions2 opportunity_models)
    as (events2 & -> & Hev2).
  rewrite !res_bind_Ok.
  assert (events1 ≡ₚ events2) as Hevents.
  { rewrite Hev1, Hev2. by apply left_join_events_perm. }
  destruct (CombinePerKey_perm _ _ Hevents)
    as [[-> ->]|(combined1 & combined2 & -> & -> & Hcombined)];
    [by left|].
  rewrite !res_bind_Ok.
  destruct (res_map_perm
              (λ kv, _generate_translation_contribution_model kv.1 kv.2)
              combined1 combined2
              (λ kv e, generate_model_raises _ _ e) Hcombined)
    as [[-> ->]|(models1 & models2 & -> & -> & Hmodels)]; [by left|].
  right. exists models1, models2, (job_run_results models1).
  rewrite !res_bind_Ok. split; [done|]. split; [|done].
  by rewrite (job_run_results_perm _ _ Hmodels).
Qed.

Lemma filter_key_NoDup {V : Type} (f : V → string) (l : list V) (k : string) :
  NoDup (map f l) → (length (filter (λ v, f v = k) l) ≤ 1)%nat.
Proof.
  induction l as [|v l IH]; [simpl; lia|].
  cbn [map]. intros Hnd. apply NoDup_cons in Hnd as [Hv Hnd].
  rewrite filter_cons. destruct (decide (f v = k)) as [<-|Hne].
  - rewrite (filter_key_nil f l (f v) Hv). simpl. lia.
  - by apply IH.
Qed.

(** X16.  When no two opportunities share an id, the order of the
    opportunities does not matter: the run gives the same outcome on
    every permutation of them. *)
Theorem run_order_of_opportunities (suggestion_models : list Suggestion.t)
    (opportunities1 opportunities2 : list Opportunity.t) :
  opportunities1 ≡ₚ opportunities2 →
  NoDup (map Opportunity.id opportunities1) →
  run suggestion_models opportunities1 = run suggestion_models opportunities2.
Proof.
  intros Hperm Hnd. unfold run, new_user_stats_models.
  rewrite !stat_events_by_target. do 4 f_equal.
  apply map_ext. intros k. f_equal. unfold first_opportunity_with_id.
  pose proof (filter_key_NoDup Opportunity.id opportunities1 k Hnd) as Hlen.
  pose proof (filter_Permutation (λ o, Opportunity.id o = k) _ _ Hperm)
    as Hfilter.
  destruct (filter _ opportunities1) as [|o1 [|o1' os1]].
  - by apply Permutation_nil_l in Hfilter as ->.
  - by apply Permutation_singleton_l in Hfilter as ->.
  - simpl in Hlen. lia.
Qed.

(** *** When the run completes *)

Lemma run_Ok_of_events (suggestion_models : list Suggestion.t)
    (opportunity_models : list Opportunity.t)
    (events : list (string * StatEvent.t)) :
  stat_events suggestion_models opportunity_models = Ok events →
  Forall (λ kv,
    count_char "." kv.1 = 2%nat
    ∧ ∃ d, strptime_date (StatEvent.last_updated_date kv.2) = Ok d) events →
  ∃ models,
    run suggestion_models opportunity_models
    = Ok (models, job_run_results models).
Proof.
  intros Hevents Hall. unfold run, new_user_stats_models.
  rewrite Hevents, res_bind_Ok.
  destruct (CombinePerKey_ok events) as (combined & -> & Hkeys).
  { eapply Forall_impl; [exact Hall|]. by intros kv (_ & H). }
  rewrite res_bind_Ok.
  destruct (res_map_total
              (λ kv, _generate_translation_contribution_model kv.1 kv.2)
              combined) as (models & -> & _).
  - apply Forall_forall. intros [k x] Hkx.
    assert (k ∈ map fst combined) as Hk
      by (apply list_elem_of_fmap; by exists (k, x)).
    rewrite Hkeys, elem_of_distinct in Hk.
    apply list_elem_of_fmap in Hk as ([k' t] & -> & Hin).
    rewrite Forall_forall in Hall. destruct (Hall _ Hin) as [Hc _].
    destruct (generate_model_Ok k' x Hc) as (m & Hm & _). by exists m.
  - by exists models.
Qed.

(** X17.  When the dates of the translation proposals are dates of the
    calendar, the run completes exactly when no translation proposal
    has a ['.'] in its language code, in its author id or in the topic
    id of the opportunity joined to it. *)
Theorem run_completes_iff (suggestion_models : list Suggestion.t)
    (opportunity_models : list Opportunity.t) :
  let suggestions :=
    filter (λ m, Suggestion.suggestion_type m
                 = SUGGESTION_TYPE_TRANSLATE_CONTENT) suggestion_models in
  Forall (λ s, valid_date (datetime.date_part (Suggestion.last_updated s)))
    suggestions →
  (∃ models results,
     run suggestion_models opportunity_models = Ok (models, results))
  ↔ Forall (λ s,
       (count_char "." (Suggestion.language_code s)
        + count_char "." (Suggestion.author_id s)
        + count_char "."
            (from_option Opportunity.topic_id EmptyString
               (first_opportunity_with_id opportunity_models
                  (Suggestion.target_id s))))%nat = 0%nat) suggestions.
Proof.
  intros suggestions Hdates. split.
  - intros (models & results & Hrun).
    apply Forall_forall. intros s Hs.
    apply list_elem_of_filter in Hs as [Htype Hs].
    destruct (proposal_event_in suggestion_models opportunity_models s
                Hs Htype) as (events & Hevents & Hin).
    match goal with |- ?n = 0%nat => destruct (decide (n = 0%nat)) as [|Hne] end;
      [done|].
    rewrite (run_key_raises suggestion_models opportunity_models events
               (StatsModel.generate_id (Suggestion.language_code s)
                  (Suggestion.author_id s)
                  (from_option Opportunity.topic_id EmptyString
                     (first_opportunity_with_id opportunity_models
                        (Suggestion.target_id s))))) in Hrun; [done|done| |].
    + apply list_elem_of_fmap. eexists. split; [|apply Hin; left].
      simpl. by destruct (first_opportunity_with_id _ _).
    + rewrite count_char_generate_id. lia.
  - intros Hkeys.
    destruct (stat_events_left_join suggestion_models opportunity_models)
      as (events & Hevents & Hperm).
    destruct (run_Ok_of_events _ _ events Hevents) as [models Hrun];
      [|by eexists _, _].
    apply Forall_forall. intros [k t] Hin.
    rewrite Hperm in Hin. unfold left_join_events in Hin.
    apply list_elem_of_In, in_concat in Hin as (l & Hl & Hin).
    apply in_map_iff in Hl as (s & <- & Hs).
    apply list_elem_of_In in Hs. fold suggestions in Hs.
    rewrite Forall_forall in Hkeys, Hdates.
    specialize (Hkeys s Hs). specialize (Hdates s Hs).
    destruct Hin as [[= <- <-]|[]]. cbn [fst snd]. split.
    + rewrite count_char_generate_id.
      destruct (first_opportunity_with_id _ _); simpl in *; lia.
    + eexists. cbn [StatEvent.last_updated_date].
      by apply strptime_isoformat.
Qed.

End Job.

(** ** The checks of [scripts/run_backend_tests.py] *)

(** *** The order of strings and [sorted] *)

Lemma string_leb_trans (s1 s2 s3 : string) :
  String.leb s1 s2 = true → String.leb s2 s3 = true → String.leb s1 s3 = true.
Proof.
  unfold String.leb. revert s2 s3.
  induction s1 as [|c1 s1 IH]; intros [|c2 s2] [|c3 s3]; simpl; try done.
  unfold Ascii.compare.
  destruct (N.compare_spec (N_of_ascii c1) (N_of_ascii c2)) as [E12|L12|G12];
    destruct (N.compare_spec (N_of_ascii c2) (N_of_ascii c3)) as [E23|L23|G23];
    try done.
  - rewrite E12, E23, N.compare_refl. apply IH.
  - assert (N_of_ascii c1 < N_of_ascii c3)%N as H by lia.
    apply N.compare_lt_iff in H. by rewrite H.
  - assert (N_of_ascii c1 < N_of_ascii c3)%N as H by lia.
    apply N.compare_lt_iff in H. by rewrite H.
  - assert (N_of_ascii c1 < N_of_ascii c3)%N as H by lia.
    apply N.compare_lt_iff in H. by rewrite H.
Qed.

#[local] Instance str_le_total : Total str_le.
Proof. intros s1 s2. apply String.leb_total. Qed.

#[local] Instance str_le_antisym : AntiSymm (=) str_le.
Proof. intros s1 s2. apply String.leb_antisym. Qed.

#[local] Instance str_le_trans : Transitive str_le.
Proof. intros s1 s2 s3. apply string_leb_trans. Qed.

Lemma sorted_perm (l : list string) : sorted l ≡ₚ l.
Proof. apply merge_sort_Permutation. Qed.

Lemma sorted_unique (l1 l2 : list string) : l1 ≡ₚ l2 → sorted l1 = sorted l2.
Proof.
  intros Hperm.
  apply (StronglySorted_unique str_le);
    try (apply StronglySorted_merge_sort; apply _).
  by rewrite !sorted_perm.
Qed.

Lemma sorted_eq_perm (l1 l2 : list string) : sorted l1 = sorted l2 ↔ l1 ≡ₚ l2.
Proof.
  split; [|apply sorted_unique].
  intros Heq. by rewrite <- (sorted_perm l1), Heq, sorted_perm.
Qed.

(** *** Duplicates *)

Lemma count_perm (x : string) (l1 l2 : list string) :
  l1 ≡ₚ l2 → count x l1 = count x l2.
Proof.
  intros Hperm. unfold count. apply Permutation_length.
  by apply filter_Permutation.
Qed.

Lemma count_zero (x : string) (l : list string) : x ∉ l → count x l = 0%nat.
Proof.
  intros Hx. unfold count.
  induction l as [|y l IH]; [done|].
  apply not_elem_of_cons in Hx as [Hne Hx].
  rewrite filter_cons_False by congruence. by apply IH.
Qed.

Lemma count_pos (x : string) (l : list string) : x ∈ l → (0 < count x l)%nat.
Proof.
  intros Hx. unfold count.
  induction l as [|y l IH]; [by apply not_elem_of_nil in Hx|].
  rewrite filter_cons. destruct (decide (y = x)); simpl; [lia|].
  apply elem_of_cons in Hx as [->|Hx]; [done | by apply IH].
Qed.

Lemma NoDup_count (l : list string) :
  NoDup l ↔ ∀ x, x ∈ l → count x l = 1%nat.
Proof.
  induction l as [|y l IH].
  - split; [|constructor]. intros _ x Hx. by apply not_elem_of_nil in Hx.
  - rewrite NoDup_cons, IH. unfold count. split.
    + intros [Hy Hl] x Hx. rewrite filter_cons.
      destruct (decide (y = x)) as [<-|Hne]; simpl.
      * f_equal. by apply (count_zero y l).
      * apply elem_of_cons in Hx as [->|Hx]; [done|]. by apply Hl.
    + intros Hall. split.
      * intros Hy. specialize (Hall y ltac:(left)).
        rewrite filter_cons_True in Hall by done. simpl in Hall.
        pose proof (count_pos y l Hy) as Hpos. unfold count in Hpos. lia.
      * intros x Hx. specialize (Hall x ltac:(by right)).
        rewrite filter_cons in Hall.
        destruct (decide (y = x)) as [<-|Hne]; simpl in Hall; [|done].
        pose proof (count_pos y l Hx) as Hpos. unfold count in Hpos. lia.
Qed.

Lemma size_list_to_set_le (l : list string) :
  (size (list_to_set l : gset string) ≤ length l)%nat.
Proof.
  induction l as [|x l IH].
  - rewrite list_to_set_nil, size_empty. done.
  - rewrite list_to_set_cons. cbn [length].
    pose proof (size_union_alt {[x]} (list_to_set l : gset string)) as Hs.
    pose proof (subseteq_size ((list_to_set l : gset string) ∖ {[x]})
                  (list_to_set l) ltac:(set_unfold; clear; tauto)) as Hle.
    rewrite size_singleton in Hs. lia.
Qed.

Lemma size_list_to_set_NoDup (l : list string) :
  size (list_to_set l : gset string) = length l ↔ NoDup l.
Proof.
  split; [|apply size_list_to_set].
  induction l as [|x l IH]; [constructor|].
  rewrite list_to_set_cons. cbn [length].
  intros Hsize. pose proof (size_list_to_set_le l) as Hle.
  destruct (decide (x ∈ l)) as [Hx|Hx].
  - replace ({[x]} ∪ list_to_set l : gset string) with
      (list_to_set l : gset string) in Hsize; [lia|].
    apply set_eq. intros y. rewrite elem_of_union, elem_of_singleton,
      elem_of_list_to_set.
    split; [by right|]. by intros [->|?].
  - rewrite size_union in Hsize.
    + rewrite size_singleton in Hsize. constructor; [done|]. apply IH. lia.
    + intros y. rewrite elem_of_singleton, elem_of_list_to_set.
      by intros ->.
Qed.

Lemma first_duplicated_None (l rest : list string) :
  first_duplicated l rest = None ↔ ∀ x, x ∈ rest → count x l = 1%nat.
Proof.
  induction rest as [|y rest IH]; simpl.
  - split; [|done]. intros _ x Hx. by apply not_elem_of_nil in Hx.
  - destruct (decide (count y l ≠ 1%nat)) as [Hy|Hy].
    + split; [done|]. intros Hall. destruct Hy. apply Hall. left.
    + rewrite IH. split.
      * intros Hall x Hx. apply elem_of_cons in Hx as [->|Hx]; [lia|].
        by apply Hall.
      * intros Hall x Hx. apply Hall. by right.
Qed.

Lemma first_duplicated_Some (l rest : list string) (x : string) :
  first_duplicated l rest = Some x → x ∈ rest ∧ count x l ≠ 1%nat.
Proof.
  induction rest as [|y rest IH]; simpl; [done|].
  destruct (decide (count y l ≠ 1%nat)) as [Hy|Hy].
  - intros [= <-]. split; [left | done].
  - intros Hx. destruct (IH Hx). split; [by right | done].
Qed.

Lemma append_not_empty (s1 s2 : string) :
  s2 ≠ EmptyString → s1 +:+ s2 ≠ EmptyString.
Proof. destruct s1; [done|]. simpl. discriminate. Qed.

(** *** [_check_shards_match_tests] *)

Section CheckShardsProperties.
Variable SHARDS_SPEC_PATH : string.
Variable format_set : gset string → string.

Lemma sorted_tests_eq_shards (shard_modules tests : list string) :
  sorted (elements (list_to_set tests : gset string)) = sorted shard_modules
  ↔ NoDup shard_modules ∧ ∀ m, m ∈ shard_modules ↔ m ∈ tests.
Proof.
  rewrite sorted_eq_perm. split.
  - intros Hperm. split.
    + rewrite <- Hperm. apply NoDup_elements.
    + intros m. by rewrite <- Hperm, elem_of_elements, elem_of_list_to_set.
  - intros [Hnd Hsame]. apply NoDup_Permutation; [apply NoDup_elements|done|].
    intros m. by rewrite elem_of_elements, elem_of_list_to_set, Hsame.
Qed.

Lemma sorted_idemp (l : list string) : sorted (sorted l) = sorted l.
Proof. apply sorted_unique, sorted_perm. Qed.

(** X18.  [_check_shards_match_tests] always returns a string: the
    exception for a duplicate that is not found is never raised and
    the assertion on [test_extra] never fails. *)
Theorem check_shards_never_raises (shards_spec : list (string * list string))
    (test_targets_from_path : list string) :
  ∃ message,
    _check_shards_match_tests SHARDS_SPEC_PATH format_set shards_spec
      test_targets_from_path
    = Returns message.
Proof.
  unfold _check_shards_match_tests.
  set (shards := sorted (concat (map snd shards_spec))).
  destruct (decide (sorted (elements (list_to_set test_targets_from_path))
                    = shards)) as [|Hdiffer]; [by eexists|].
  destruct (decide (size (list_to_set shards : gset string) ≠ length shards))
    as [Hdup|Hnodup].
  - destruct (first_duplicated shards shards) as [m|] eqn:Efirst;
      [by eexists|].
    destruct Hdup. apply size_list_to_set_NoDup, NoDup_count.
    by apply first_duplicated_None.
  - destruct (decide (list_to_set shards ∖ list_to_set test_targets_from_path
                      ≠@{gset string} ∅)) as [|Hshard]; [by eexists|].
    destruct (decide (list_to_set test_targets_from_path ∖ list_to_set shards
                      ≠@{gset string} ∅)) as [|Htest]; [by eexists|].
    destruct Hdiffer.
    transitivity (sorted shards); [|apply sorted_idemp].
    apply sorted_tests_eq_shards. split.
    + apply size_list_to_set_NoDup.
      by destruct (decide (size (list_to_set shards : gset string)
                           = length shards)).
    + intros m. rewrite <- !(elem_of_list_to_set (C:=gset string)).
      destruct (decide (list_to_set shards
                        ∖ list_to_set test_targets_from_path
                        =@{gset string} ∅)) as [Es|]; [|done].
      destruct (decide (list_to_set test_targets_from_path
                        ∖ list_to_set shards
                        =@{gset string} ∅)) as [Et|]; [|done].
      clear -Es Et. set_unfold.
      destruct (decide (m ∈ shards)), (decide (m ∈ test_targets_from_path));
        try done.
      * edestruct Es; eauto.
      * edestruct Et; eauto.
Qed.

(** X19.  [_check_shards_match_tests] returns the empty string
    exactly when no module stands twice in the shards and the modules
    of the shards are the test targets found. *)
Theorem check_shards_empty_iff (shards_spec : list (string * list string))
    (test_targets_from_path : list string) :
  _check_shards_match_tests SHARDS_SPEC_PATH format_set shards_spec
    test_targets_from_path
  = Returns EmptyString
  ↔ NoDup (concat (map snd shards_spec))
    ∧ ∀ m, m ∈ concat (map snd shards_spec) ↔ m ∈ test_targets_from_path.
Proof.
  rewrite <- sorted_tests_eq_shards.
  unfold _check_shards_match_tests.
  set (shards := sorted (concat (map snd shards_spec))).
  destruct (decide (sorted (elements (list_to_set test_targets_from_path))
                    = shards)) as [Hsame|Hdiffer]; [done|].
  split; [|done]. intros Hmsg. exfalso.
  destruct (decide (size (list_to_set shards : gset string) ≠ length shards)).
  - destruct (first_duplicated shards shards); [|done].
    injection Hmsg. apply append_not_empty. simpl. discriminate.
  - repeat case_decide; try done; by injection Hmsg.
Qed.

(** X20.  When a module stands more than once in the shards,
    [_check_shards_match_tests] returns the message that a module is
    duplicated, and the module it names stands at least twice in the
    shards. *)
Theorem check_shards_reports_duplicate
    (shards_spec : list (string * list string))
    (test_targets_from_path : list string) :
  ¬ NoDup (concat (map snd shards_spec)) →
  ∃ module,
    _check_shards_match_tests SHARDS_SPEC_PATH format_set shards_spec
      test_targets_from_path
    = Returns (module +:+ " duplicated in " +:+ SHARDS_SPEC_PATH)
    ∧ (2 ≤ count module (concat (map snd shards_spec)))%nat.
Proof.
  intros Hdup. unfold _check_shards_match_tests.
  set (shards := sorted (concat (map snd shards_spec))).
  assert (shards ≡ₚ concat (map snd shards_spec)) as Hperm
    by apply sorted_perm.
  destruct (decide (sorted (elements (list_to_set test_targets_from_path))
                    = shards)) as [Hsame|_].
  { destruct Hdup. unfold shards in Hsame.
    by apply sorted_tests_eq_shards in Hsame as [Hnd _]. }
  destruct (decide (size (list_to_set shards : gset string) ≠ length shards))
    as [_|Hnodup].
  - destruct (first_duplicated shards shards) as [m|] eqn:Efirst.
    + exists m. split; [done|].
      apply first_duplicated_Some in Efirst as [Hin Hcount].
      pose proof (count_pos m shards Hin).
      rewrite <- (count_perm m _ _ Hperm). lia.
    + destruct Hdup. rewrite <- Hperm. apply NoDup_count.
      by apply first_duplicated_None.
  - destruct Hdup. rewrite <- Hperm. apply size_list_to_set_NoDup.
    by destruct (decide (size (list_to_set shards : gset string)
                         = length shards)).
Qed.

(** X21.  When no module stands twice in the shards:
    if some module of the shards is not among the test targets, the
    message lists exactly the modules of the shards that are not test
    targets; otherwise, if some test target is in no shard, the
    message lists exactly the test targets that are in no shard. *)
Theorem check_shards_reports_difference
    (shards_spec : list (string * list string))
    (test_targets_from_path : list string) :
  let shard_set : gset string := list_to_set (concat (map snd shards_spec)) in
  let test_set : gset string := list_to_set test_targets_from_path in
  NoDup (concat (map snd shards_spec)) →
  (shard_set ∖ test_set ≠ ∅ →
   _check_shards_match_tests SHARDS_SPEC_PATH format_set shards_spec
     test_targets_from_path
   = Returns ("Modules " +:+ format_set (shard_set ∖ test_set)
              +:+ " in shards not found. See " +:+ SHARDS_WIKI_LINK +:+ "."))
  ∧ (shard_set ∖ test_set = ∅ → test_set ∖ shard_set ≠ ∅ →
     _check_shards_match_tests SHARDS_SPEC_PATH format_set shards_spec
       test_targets_from_path
     = Returns ("Modules " +:+ format_set (test_set ∖ shard_set)
                +:+ " not in shards. See " +:+ SHARDS_WIKI_LINK +:+ ".")).
Proof.
  intros shard_set test_set Hnd.
  unfold _check_shards_match_tests.
  set (shards := sorted (concat (map snd shards_spec))).
  assert (shards ≡ₚ concat (map snd shards_spec)) as Hperm
    by apply sorted_perm.
  assert (list_to_set shards = shard_set) as Hset.
  { apply set_eq. intros m. unfold shard_set.
    by rewrite !elem_of_list_to_set, Hperm. }
  assert (size (list_to_set shards : gset string) = length shards) as Hsize.
  { apply size_list_to_set_NoDup. by rewrite Hperm. }
  assert (shard_set ∖ test_set ≠ ∅ ∨ test_set ∖ shard_set ≠ ∅ →
          sorted (elements test_set) ≠ shards)
    as Hdiffer.
  { intros Hne Hsame. unfold shards in Hsame.
    apply sorted_tests_eq_shards in Hsame as [_ Hsame].
    assert (shard_set = test_set) as Heq.
    { apply set_eq. intros m. unfold shard_set, test_set.
      by rewrite !elem_of_list_to_set. }
    rewrite Heq in Hne. destruct Hne as [Hne|Hne]; apply Hne;
      apply set_eq; intros m; set_unfold; clear; tauto. }
  rewrite Hset in Hsize |- *. fold test_set. split.
  - intros Hextra.
    rewrite decide_False by (apply Hdiffer; by left).
    rewrite decide_False by (intros Hne; by apply Hne).
    by rewrite decide_True.
  - intros Hnone Hextra.
    rewrite decide_False by (apply Hdiffer; by right).
    rewrite decide_False by (intros Hne; by apply Hne).
    rewrite decide_False by (intros Hne; by apply Hne).
    by rewrite decide_True.
Qed.

End CheckShardsProperties.

(** *** [_load_coverage_exclusion_list] *)

Lemma lstrip_idemp (s : string) : lstrip (lstrip s) = lstrip s.
Proof.
  induction s as [|c s IH]; [done|]. simpl.
  destruct (is_space c) eqn:Ec; [done|]. simpl. by rewrite Ec.
Qed.

Lemma rstrip_idemp (s : string) : rstrip (rstrip s) = rstrip s.
Proof.
  induction s as [|c s IH]; [done|]. simpl.
  destruct (rstrip s) as [|c' r] eqn:Er.
  - destruct (is_space c) eqn:Ec; [done|]. simpl. by rewrite Ec.
  - change (rstrip (String c (String c' r)))
      with (match rstrip (String c' r) with
            | EmptyString =>
                if is_space c then EmptyString else String c EmptyString
            | String c'' r' => String c (String c'' r')
            end).
    by rewrite IH.
Qed.

Lemma rstrip_head (c : ascii) (s : string) :
  rstrip (String c s) = EmptyString ∨ ∃ r, rstrip (String c s) = String c r.
Proof.
  simpl. destruct (rstrip s); [|by eauto].
  destruct (is_space c); [by left | by eauto].
Qed.

Lemma rstrip_empty_head (c : ascii) (s : string) :
  rstrip (String c s) = EmptyString → is_space c = true.
Proof.
  simpl. destruct (rstrip s); [|done]. by destruct (is_space c).
Qed.

Lemma lstrip_rstrip (s : string) :
  lstrip s = s → lstrip (rstrip s) = rstrip s.
Proof.
  destruct s as [|c s]; [done|]. intros Hs.
  assert (is_space c = false) as Hc.
  { simpl in Hs. destruct (is_space c) eqn:Ec; [|done].
    assert (String.length (lstrip s) ≤ String.length s)%nat as Hlen.
    { clear. induction s as [|c s IH]; simpl; [done|].
      destruct (is_space c); simpl; lia. }
    rewrite Hs in Hlen. simpl in Hlen. lia. }
  destruct (rstrip_head c s) as [->|[r ->]]; [done|].
  simpl. by rewrite Hc.
Qed.

Lemma strip_idemp (s : string) : strip (strip s) = strip s.
Proof.
  unfold strip. rewrite (lstrip_rstrip (lstrip s)) by apply lstrip_idemp.
  apply rstrip_idemp.
Qed.

Lemma length_lstrip (s : string) :
  (String.length (lstrip s) ≤ String.length s)%nat.
Proof.
  induction s as [|c s IH]; simpl; [done|].
  destruct (is_space c); simpl; lia.
Qed.

Lemma length_rstrip (s : string) :
  (String.length (rstrip s) ≤ String.length s)%nat.
Proof.
  induction s as [|c s IH]; simpl; [done|].
  destruct (rstrip s); [destruct (is_space c)|]; simpl in *; lia.
Qed.

Lemma lstrip_same_length (s : string) :
  String.length (lstrip s) = String.length s → lstrip s = s.
Proof.
  destruct s as [|c s]; [done|]. simpl.
  destruct (is_space c); [|done].
  pose proof (length_lstrip s). lia.
Qed.

Lemma strip_fixed (s : string) : strip s = s → lstrip s = s ∧ rstrip s = s.
Proof.
  unfold strip. intros Hs.
  assert (lstrip s = s) as Hl.
  { apply lstrip_same_length.
    pose proof (length_lstrip s). pose proof (length_rstrip (lstrip s)).
    rewrite Hs in *. lia. }
  split; [done|]. by rewrite Hl in Hs.
Qed.

Lemma rstrip_newline (s : string) :
  rstrip (s +:+ String "010" EmptyString) = rstrip s.
Proof.
  induction s as [|c s IH]; [done|].
  change (String c s +:+ String "010" EmptyString)
    with (String c (s +:+ String "010" EmptyString)).
  simpl. by rewrite IH.
Qed.

Lemma load_coverage_exclusion_list_from
  (exclusion_file exclusion_list : list string) :
  fold_left
    (λ exclusion_list line,
       let line := strip line in
       if startswith "#" line || bool_decide (line = EmptyString)
       then exclusion_list
       else (exclusion_list ++ [line])%list)
    exclusion_file exclusion_list
  = (exclusion_list
     ++ filter (λ line, startswith "#" line = false ∧ line ≠ EmptyString)
          (map strip exclusion_file))%list.
Proof.
  revert exclusion_list.
  induction exclusion_file as [|line lines IH]; intros exclusion_list.
  - by rewrite app_nil_r.
  - cbn [fold_left map]. rewrite filter_cons, IH. cbv zeta.
    destruct (startswith "#" (strip line)) eqn:Estart; cbn [orb].
    + rewrite decide_False; [done|]. by intros [? _].
    + case_bool_decide as Hempty.
      * rewrite decide_False; [done|]. by intros [_ ?].
      * rewrite decide_True by done. by rewrite <- app_assoc.
Qed.

(** The lines the loop keeps. *)
Lemma load_coverage_exclusion_list_eq (exclusion_file : list string) :
  _load_coverage_exclusion_list exclusion_file
  = filter (λ line, startswith "#" line = false ∧ line ≠ EmptyString)
      (map strip exclusion_file).
Proof.
  unfold _load_coverage_exclusion_list.
  by rewrite load_coverage_exclusion_list_from.
Qed.

(** X22.  Every entry [_load_coverage_exclusion_list] returns is not
    empty, does not start with ['#'] and has no white space at either
    end; loading the returned entries again returns them unchanged. *)
Theorem load_coverage_exclusion_list_clean (exclusion_file : list string) :
  Forall (λ entry,
    entry ≠ EmptyString ∧ startswith "#" entry = false ∧ strip entry = entry)
    (_load_coverage_exclusion_list exclusion_file)
  ∧ _load_coverage_exclusion_list (_load_coverage_exclusion_list exclusion_file)
    = _load_coverage_exclusion_list exclusion_file.
Proof.
  assert (Forall (λ entry,
            entry ≠ EmptyString ∧ startswith "#" entry = false
            ∧ strip entry = entry)
            (_load_coverage_exclusion_list exclusion_file)) as Hclean.
  { rewrite load_coverage_exclusion_list_eq. apply Forall_forall.
    intros entry Hin. apply list_elem_of_filter in Hin as [[Hs He] Hin].
    apply list_elem_of_fmap in Hin as (line & -> & _).
    split; [done|]. split; [done|]. apply strip_idemp. }
  split; [exact Hclean|].
  rewrite (load_coverage_exclusion_list_eq (_load_coverage_exclusion_list _)).
  induction Hclean as [|entry entries (He & Hs & Hstrip) _ IH]; [done|].
  cbn [map]. rewrite Hstrip, filter_cons_True by done. by rewrite IH.
Qed.

(** X23.  Loading a file is loading its parts one after the other:
    no line changes what [_load_coverage_exclusion_list] does with a
    later one. *)
Theorem load_coverage_exclusion_list_app (lines1 lines2 : list string) :
  _load_coverage_exclusion_list (lines1 ++ lines2)
  = (_load_coverage_exclusion_list lines1
     ++ _load_coverage_exclusion_list lines2)%list.
Proof.
  by rewrite !load_coverage_exclusion_list_eq, map_app, filter_app.
Qed.

(** X24.  A file that holds one name on each line, the names not
    empty, not starting with ['#'] and without white space at either
    end, loads as the list of the names, in the order and with the
    repetitions of the file. *)
Theorem load_coverage_exclusion_list_round_trip (names : list string) :
  Forall (λ name,
    name ≠ EmptyString ∧ startswith "#" name = false ∧ strip name = name)
    names →
  _load_coverage_exclusion_list
    (map (λ name, name +:+ String "010" EmptyString) names)
  = names.
Proof.
  intros Hnames. rewrite load_coverage_exclusion_list_eq.
  induction Hnames as [|name names (He & Hs & Hstrip) _ IH]; [done|].
  cbn [map].
  assert (strip (name +:+ String "010" EmptyString) = name) as ->.
  { apply strip_fixed in Hstrip as [Hl Hr]. unfold strip.
    destruct name as [|c name]; [done|].
    assert (is_space c = false) as Hc.
    { simpl in Hl. destruct (is_space c); [|done].
      pose proof (length_lstrip name) as Hlen. rewrite Hl in Hlen.
      simpl in Hlen. lia. }
    change (String c name +:+ String "010" EmptyString)
      with (String c (name +:+ String "010" EmptyString)).
    cbn [lstrip]. rewrite Hc.
    change (String c (name +:+ String "010" EmptyString))
      with (String c name +:+ String "010" EmptyString).
    by rewrite rstrip_newline. }
  rewrite filter_cons_True by done. by rewrite IH.
Qed.

(** ** The theorems at sample data

    The constants are instantiated with ["accepted"], ["rejected"] and
    ["translate_content"], the stripper with [drop_tags false]. *)

Lemma partial_merges_agree_witness :
  [[sample_event]; [sample_rejected_event]] ≠ []
  ∧ concat [[sample_event]; [sample_rejected_event]]
    ≡ₚ [sample_rejected_event; sample_event]
  ∧ (accs ← res_map (reduce "accepted" "rejected")
               [[sample_event]; [sample_rejected_event]];
     merge_accumulators accs)
    = reduce "accepted" "rejected" [sample_rejected_event; sample_event].
Proof.
  split; [discriminate|]. split; [apply perm_swap|].
  apply (proj1 (partial_merges_agree "accepted" "rejected"
                  [sample_rejected_event; sample_event]));
    [discriminate | apply perm_swap].
Defined.

Lemma add_input_increments_witness :
  strptime_date (StatEvent.last_updated_date sample_event)
  = Ok (Date 2024 1 5)
  ∧ ∃ acc',
      add_input "accepted" "rejected" create_accumulator sample_event = Ok acc'
      ∧ TranslationContributionStats.submitted_translations_count acc' = 1
      ∧ TranslationContributionStats.accepted_translation_word_count acc' = 2.
Proof.
  split; [reflexivity|].
  destruct (add_input_increments "accepted" "rejected" create_accumulator
              sample_event (Date 2024 1 5) eq_refl)
    as (acc' & Hadd & Hsubmitted & _ & Haccepted & _).
  exists acc'. split; [exact Hadd|]. split; [exact Hsubmitted|].
  exact (proj2 (Haccepted eq_refl)).
Defined.

Lemma reachable_invariant_witness :
  "accepted" ≠ "rejected"
  ∧ ∃ x,
      add_input "accepted" "rejected" create_accumulator sample_event = Ok x
      ∧ reachable "accepted" "rejected" x
      ∧ stats_invariant x.
Proof.
  split; [discriminate|]. eexists. split; [reflexivity|].
  assert (reachable "accepted" "rejected"
            (add_event "accepted" "rejected" create_accumulator sample_event
               (Date 2024 1 5))) as Hreach.
  { apply (reachable_add "accepted" "rejected" create_accumulator
             sample_event);
      [apply reachable_create | simpl; lia | reflexivity]. }
  split; [exact Hreach|].
  apply (reachable_invariant "accepted" "rejected"); [discriminate|].
  exact Hreach.
Defined.

Lemma merge_identity_left_witness :
  [sample_event] ≠ []
  ∧ ∃ x,
      reduce "accepted" "rejected" [sample_event] = Ok x
      ∧ merge_accumulators [create_accumulator; x] = Ok x.
Proof.
  split; [discriminate|]. eexists. split; [reflexivity|].
  apply (merge_identity_left "accepted" "rejected" [sample_event]);
    [discriminate | reflexivity].
Defined.

Lemma key_fields_come_from_entity_id_witness :
  count_char "." "es" = 0%nat ∧ count_char "." "u1" = 0%nat
  ∧ count_char "." "t1" = 0%nat
  ∧ (∃ x, reduce "accepted" "rejected" [sample_event] = Ok x
          ∧ TranslationContributionStats.language_code x = None)
  ∧ ∃ m,
      _generate_translation_contribution_model
        (StatsModel.generate_id "es" "u1" "t1") create_accumulator = Ok m
      ∧ StatsModel.language_code m = "es"
      ∧ StatsModel.contributor_user_id m = "u1"
      ∧ StatsModel.topic_id m = "t1".
Proof.
  pose proof (key_fields_come_from_entity_id "accepted" "rejected")
    as (_ & Hkeys & Hmodel).
  split; [reflexivity|]. split; [reflexivity|]. split; [reflexivity|]. split.
  - eexists. split; [reflexivity|].
    exact (proj1 (Hkeys [sample_event] _ eq_refl)).
  - exact (Hmodel "es" "u1" "t1" create_accumulator eq_refl eq_refl eq_refl).
Defined.

Lemma unparsable_date_raises_witness :
  (∀ d, strptime_date (StatEvent.last_updated_date sample_bad_event) ≠ Ok d)
  ∧ add_input "accepted" "rejected" create_accumulator sample_bad_event
    = Raise ValueError.
Proof.
  assert (∀ d, strptime_date (StatEvent.last_updated_date sample_bad_event)
               ≠ Ok d) as Hbad by (intros d; discriminate).
  split; [exact Hbad|].
  exact (proj1 (unparsable_date_raises "accepted" "rejected" (drop_tags false))
           create_accumulator sample_bad_event Hbad).
Defined.

Lemma model_needs_two_delimiters_witness :
  count_char "." "es.u1." = 2%nat
  ∧ ∃ m, _generate_translation_contribution_model "es.u1." create_accumulator
         = Ok m.
Proof.
  split; [reflexivity|].
  exact (proj2 (proj1 (model_needs_two_delimiters "accepted" "rejected"
                         "translate_content" (drop_tags false))
                  "es.u1." create_accumulator)
           eq_refl).
Defined.

Lemma unmatched_proposal_is_counted_witness :
  sample_suggestion ∈ [sample_question; sample_suggestion]
  ∧ Suggestion.suggestion_type sample_suggestion = "translate_content"
  ∧ (∀ o, o ∈ [sample_other_opportunity] →
          Opportunity.id o ≠ Suggestion.target_id sample_suggestion)
  ∧ ∃ events translation,
      stat_events "translate_content" (drop_tags false)
        [sample_question; sample_suggestion] [sample_other_opportunity]
      = Ok events
      ∧ ("es.u1.", translation) ∈ events.
Proof.
  assert (sample_suggestion ∈ [sample_question; sample_suggestion]) as Hin
    by (right; left).
  assert (∀ o, o ∈ [sample_other_opportunity] →
               Opportunity.id o ≠ Suggestion.target_id sample_suggestion)
    as Hunmatched.
  { intros o Ho. apply list_elem_of_singleton in Ho. subst o. discriminate. }
  split; [exact Hin|]. split; [reflexivity|]. split; [exact Hunmatched|].
  destruct (unmatched_proposal_is_counted "translate_content" (drop_tags false)
              [sample_question; sample_suggestion] [sample_other_opportunity]
              sample_suggestion Hin eq_refl Hunmatched)
    as (events & translation & Hevents & _ & _ & _ & Hkey).
  exists events, translation. split; [exact Hevents | exact Hkey].
Defined.

Lemma summary_only_when_models_exist_witness :
  Forall (λ s, Suggestion.suggestion_type s ≠ "translate_content")
    [sample_question]
  ∧ run "accepted" "rejected" "translate_content" (drop_tags false)
      [sample_question] [sample_opportunity]
    = Ok ([], []).
Proof.
  assert (Forall (λ s, Suggestion.suggestion_type s ≠ "translate_content")
            [sample_question]) as Hnone
    by (constructor; [discriminate | constructor]).
  split; [exact Hnone|].
  exact (proj1 (proj2 (summary_only_when_models_exist "accepted" "rejected"
                         "translate_content" (drop_tags false)))
           [sample_question] [sample_opportunity] Hnone).
Defined.

(** ** Where the code departs from the specification *)

(** C5.  With no translation proposal the run makes no model and
    returns no result: there is no ['SUCCESS 0']. *)
Lemma no_summary_for_zero_models :
  ∃ results,
    run "accepted" "rejected" "translate_content" (drop_tags false)
      [sample_question] [sample_opportunity]
    = Ok ([], results)
    ∧ results = []
    ∧ results ≠ [JobRunResult.mk "SUCCESS 0" EmptyString].
Proof.
  exists []. split; [reflexivity|]. split; [reflexivity | discriminate].
Qed.

(** C6.  Two opportunities share the id [exp1]: the run returns, with
    the model keyed by the topic of the first of them. *)
Lemma duplicate_opportunity_ids_do_not_fail :
  ∃ models results,
    run "accepted" "rejected" "translate_content" (drop_tags false)
      [sample_suggestion] [sample_opportunity; sample_duplicate]
    = Ok (models, results)
    ∧ map StatsModel.id models = ["es.u1.t1"]
    ∧ map JobRunResult.stdout results = ["SUCCESS 1"].
Proof.
  eexists _, _. split; [vm_compute; reflexivity|].
  split; reflexivity.
Qed.

(** C8.  The accumulator the combine step builds for the key
    [es.u1.t1] has none of the key's components. *)
Lemma accumulator_key_fields_not_set :
  ∃ x,
    CombinePerKey create_accumulator (add_input "accepted" "rejected")
      extract_output
      (_generate_stats (drop_tags false) [sample_suggestion]
         (Some sample_opportunity))
    = Ok [("es.u1.t1", x)]
    ∧ TranslationContributionStats.language_code x ≠ Some "es"
    ∧ TranslationContributionStats.contributor_user_id x ≠ Some "u1"
    ∧ TranslationContributionStats.topic_id x ≠ Some "t1".
Proof.
  eexists. split; [vm_compute; reflexivity|].
  split; [discriminate|]. split; discriminate.
Qed.

(** C2.  [add_input] does not return an accumulator for every event.
    The event dated [2024-02-30] has the form of a date and names no
    day of the calendar: [strptime] raises [ValueError] on it, and so
    does [add_input], from a fresh accumulator and from one that
    holds a proposal.  No count is incremented. *)
Lemma add_input_returns_no_accumulator :
  ∃ acc,
    add_input "accepted" "rejected" create_accumulator sample_rejected_event
    = Ok acc
    ∧ TranslationContributionStats.submitted_translations_count acc = 1
    ∧ add_input "accepted" "rejected" acc
        (StatEvent.mk "rejected" true 3 "2024-02-30")
      = Raise ValueError
    ∧ add_input "accepted" "rejected" create_accumulator
        (StatEvent.mk "rejected" true 3 "2024-02-30")
      = Raise ValueError.
Proof.
  eexists. split; [reflexivity|]. split; [reflexivity|].
  split; reflexivity.
Qed.

(** C9.  An event with the date [05/01/2024] is not skipped:
    [add_input] raises and the combine step fails for the whole
    collection. *)
Lemma unparsable_date_is_not_skipped :
  add_input "accepted" "rejected" create_accumulator sample_bad_event
  = Raise ValueError
  ∧ CombinePerKey create_accumulator (add_input "accepted" "rejected")
      extract_output
      [("es.u1.t1", sample_event); ("es.u1.t1", sample_bad_event)]
    = Raise ValueError.
Proof. split; reflexivity. Qed.

(** ** Further theorems at sample data *)

Lemma reduce_closed_form_witness :
  res_map (λ t, strptime_date (StatEvent.last_updated_date t))
    [sample_event; sample_rejected_event]
  = Ok [Date 2024 1 5; Date 2024 1 6]
  ∧ ∃ x,
      reduce "accepted" "rejected" [sample_event; sample_rejected_event] = Ok x
      ∧ TranslationContributionStats.submitted_translations_count x = 2
      ∧ TranslationContributionStats.submitted_translation_word_count x = 7
      ∧ TranslationContributionStats.rejected_translation_word_count x = 5.
Proof.
  split; [reflexivity|]. eexists. split.
  - exact (reduce_closed_form "accepted" "rejected"
             [sample_event; sample_rejected_event]
             [Date 2024 1 5; Date 2024 1 6] eq_refl).
  - split; [reflexivity|]. split; reflexivity.
Defined.

Lemma merge_accumulators_flattens_witness :
  ∃ a b,
    reduce "accepted" "rejected" [sample_event] = Ok a
    ∧ reduce "accepted" "rejected" [sample_rejected_event] = Ok b
    ∧ Forall (λ accs : list TranslationContributionStats.t, accs ≠ [])
        [[a]; [b; a]]
    ∧ (xs ← res_map merge_accumulators [[a]; [b; a]]; merge_accumulators xs)
      = merge_accumulators [a; b; a]
    ∧ ∃ x,
        merge_accumulators [a; b; a] = Ok x
        ∧ TranslationContributionStats.submitted_translations_count x = 3
        ∧ TranslationContributionStats.submitted_translation_word_count x = 9
        ∧ TranslationContributionStats.accepted_translations_count x = 2
        ∧ TranslationContributionStats.rejected_translation_word_count x = 5
        ∧ Date 2024 1 6
          ∈ TranslationContributionStats.contribution_dates x.
Proof.
  eexists _, _. split; [reflexivity|]. split; [reflexivity|].
  match goal with
  | |- Forall _ ?groups ∧ _ =>
      assert (Forall (λ accs : list TranslationContributionStats.t, accs ≠ [])
                groups) as Hne by (repeat constructor; discriminate)
  end.
  split; [exact Hne|].
  split; [exact (merge_accumulators_flattens _ Hne)|].
  eexists. split; [reflexivity|].
  repeat (split; [reflexivity|]).
  apply (bool_decide_unpack _). vm_compute. exact I.
Defined.

Lemma merge_accumulators_permutation_witness :
  ∃ a b,
    reduce "accepted" "rejected" [sample_event] = Ok a
    ∧ reduce "accepted" "rejected" [sample_rejected_event] = Ok b
    ∧ [a; b] ≡ₚ [b; a] ∧ [a; b] ≠ []
    ∧ ∃ x y,
        merge_accumulators [a; b] = Ok x
        ∧ merge_accumulators [b; a] = Ok y
        ∧ TranslationContributionStats.contribution_dates x
          = TranslationContributionStats.contribution_dates y.
Proof.
  eexists _, _. split; [reflexivity|]. split; [reflexivity|].
  split; [apply perm_swap|]. split; [discriminate|].
  match goal with
  | |- ∃ x y, merge_accumulators [?a; ?b] = _ ∧ _ =>
      destruct (merge_accumulators_permutation [a; b] [b; a]
                  (perm_swap b a []) ltac:(discriminate))
        as (x & y & Hx & Hy & _ & _ & _ & _ & _ & _ & _ & Hdates & _)
  end.
  exists x, y. split; [exact Hx|]. split; [exact Hy | exact Hdates].
Defined.

Lemma reachable_empty_iff_witness :
  ∃ a b x,
    add_input "accepted" "rejected" create_accumulator sample_event = Ok a
    ∧ add_input "accepted" "rejected" create_accumulator sample_rejected_event
      = Ok b
    ∧ merge_accumulators [a; b] = Ok x
    ∧ reachable "accepted" "rejected" x
    ∧ TranslationContributionStats.submitted_translations_count x = 2
    ∧ x ≠ create_accumulator
    ∧ TranslationContributionStats.contribution_dates x ≠ ∅.
Proof.
  pose (a := add_event "accepted" "rejected" create_accumulator sample_event
               (Date 2024 1 5)).
  pose (b := add_event "accepted" "rejected" create_accumulator
               sample_rejected_event (Date 2024 1 6)).
  exists a, b. eexists.
  split; [reflexivity|]. split; [reflexivity|]. split; [reflexivity|].
  match goal with
  | |- reachable _ _ ?x ∧ _ =>
      assert (reachable "accepted" "rejected" x) as Hreach
  end.
  { apply (reachable_merge "accepted" "rejected" [a; b]); [|reflexivity].
    intros c Hc. apply elem_of_cons in Hc as [->|Ha].
    - apply (reachable_add "accepted" "rejected" create_accumulator
               sample_event);
        [apply reachable_create | simpl; lia | reflexivity].
    - apply list_elem_of_singleton in Ha as ->.
      apply (reachable_add "accepted" "rejected" create_accumulator
               sample_rejected_event);
        [apply reachable_create | simpl; lia | reflexivity]. }
  split; [exact Hreach|].
  destruct (reachable_empty_iff "accepted" "rejected" _ Hreach)
    as [Hfresh Hdates].
  split; [reflexivity|]. split.
  - intros Heq. apply Hfresh in Heq. discriminate Heq.
  - intros Heq. apply Hdates in Heq. discriminate Heq.
Defined.

Lemma reachable_keys_and_dates_witness :
  ∃ x,
    add_input "accepted" "rejected" create_accumulator sample_event = Ok x
    ∧ reachable "accepted" "rejected" x
    ∧ ∀ d, d ∈ TranslationContributionStats.contribution_dates x →
           valid_date d.
Proof.
  eexists. split; [reflexivity|].
  assert (reachable "accepted" "rejected"
            (add_event "accepted" "rejected" create_accumulator sample_event
               (Date 2024 1 5))) as Hreach.
  { apply (reachable_add "accepted" "rejected" create_accumulator
             sample_event);
      [apply reachable_create | simpl; lia | reflexivity]. }
  split; [exact Hreach|].
  exact (proj2 (proj2 (proj2 (reachable_keys_and_dates "accepted" "rejected"
                                _ Hreach)))).
Defined.

Lemma reachable_word_counts_witness :
  "accepted" ≠ "rejected"
  ∧ ∃ x,
      add_input "accepted" "rejected" create_accumulator sample_rejected_event
      = Ok x
      ∧ reachable "accepted" "rejected" x
      ∧ TranslationContributionStats.accepted_translation_word_count x
        + TranslationContributionStats.rejected_translation_word_count x
        ≤ TranslationContributionStats.submitted_translation_word_count x.
Proof.
  split; [discriminate|]. eexists. split; [reflexivity|].
  assert (reachable "accepted" "rejected"
            (add_event "accepted" "rejected" create_accumulator
               sample_rejected_event (Date 2024 1 6))) as Hreach.
  { apply (reachable_add "accepted" "rejected" create_accumulator
             sample_rejected_event);
      [apply reachable_create | simpl; lia | reflexivity]. }
  split; [exact Hreach|].
  exact (proj1 (reachable_word_counts "accepted" "rejected" _
                  ltac:(discriminate) Hreach)).
Defined.

Lemma generated_event_adds_its_date_witness :
  valid_date (datetime.date_part (Suggestion.last_updated sample_suggestion))
  ∧ ∃ k translation acc',
      (k, translation)
      ∈ _generate_stats (drop_tags false) [sample_suggestion]
          (Some sample_opportunity)
      ∧ add_input "accepted" "rejected" create_accumulator translation
        = Ok acc'
      ∧ TranslationContributionStats.contribution_dates acc'
        = ∅ ∪ {[ Date 2024 1 5 ]}.
Proof.
  split; [reflexivity|]. eexists _, _.
  match goal with
  | |- ∃ acc', (?k, ?t) ∈ ?l ∧ _ =>
      assert ((k, t) ∈ l) as Hkv by (left)
  end.
  destruct (generated_event_adds_its_date "accepted" "rejected"
              (drop_tags false) sample_suggestion (Some sample_opportunity)
              create_accumulator _ _ eq_refl Hkv) as (acc' & Hacc & Hdates).
  exists acc'. split; [exact Hkv|]. split; [exact Hacc | exact Hdates].
Defined.

Lemma run_raises_only_ValueError_witness :
  run "accepted" "rejected" "translate_content" (drop_tags false)
    [sample_dotted] [sample_opportunity]
  = Raise ValueError
  ∧ ∃ events,
      stat_events "translate_content" (drop_tags false)
        [sample_dotted] [sample_opportunity]
      = Ok events.
Proof.
  split; [reflexivity|].
  exact (proj2 (run_raises_only_ValueError "accepted" "rejected"
                  "translate_content" (drop_tags false)
                  [sample_dotted] [sample_opportunity] ValueError eq_refl)).
Defined.

Lemma generated_model_fields_witness :
  ∃ m,
    _generate_translation_contribution_model "es.u1.t1" create_accumulator
    = Ok m
    ∧ StatsModel.generate_id (StatsModel.language_code m)
        (StatsModel.contributor_user_id m) (StatsModel.topic_id m)
      = "es.u1.t1".
Proof.
  eexists. split; [reflexivity|].
  exact (proj1 (proj2 (generated_model_fields "es.u1.t1" create_accumulator
                         _ eq_refl))).
Defined.

Lemma run_models_have_distinct_ids_witness :
  ∃ models results,
    run "accepted" "rejected" "translate_content" (drop_tags false)
      [sample_accepted; sample_question; sample_rejected]
      [sample_opportunity]
    = Ok (models, results)
    ∧ NoDup (map StatsModel.id models).
Proof.
  eexists _, _. split; [vm_compute; reflexivity|].
  refine (proj1 (run_models_have_distinct_ids "accepted" "rejected"
                   "translate_content" (drop_tags false)
                   [sample_accepted; sample_question; sample_rejected]
                   [sample_opportunity] _ _ _)).
  vm_compute. reflexivity.
Defined.

Lemma run_counts_every_proposal_once_witness :
  ∃ models results,
    run "accepted" "rejected" "translate_content" (drop_tags false)
      [sample_accepted; sample_question; sample_rejected]
      [sample_opportunity]
    = Ok (models, results)
    ∧ py_sum (map StatsModel.submitted_translations_count models) = 2.
Proof.
  eexists _, _. split; [vm_compute; reflexivity|].
  refine (proj1 (run_counts_every_proposal_once "accepted" "rejected"
                   "translate_content" (drop_tags false)
                   [sample_accepted; sample_question; sample_rejected]
                   [sample_opportunity] _ _ _)).
  vm_compute. reflexivity.
Defined.

Lemma run_order_of_suggestions_witness :
  [sample_accepted; sample_rejected] ≡ₚ [sample_rejected; sample_accepted]
  ∧ ((run "accepted" "rejected" "translate_content" (drop_tags false)
        [sample_accepted; sample_rejected] [sample_opportunity]
      = Raise ValueError
      ∧ run "accepted" "rejected" "translate_content" (drop_tags false)
          [sample_rejected; sample_accepted] [sample_opportunity]
        = Raise ValueError)
     ∨ ∃ models1 models2 results,
         run "accepted" "rejected" "translate_content" (drop_tags false)
           [sample_accepted; sample_rejected] [sample_opportunity]
         = Ok (models1, results)
         ∧ run "accepted" "rejected" "translate_content" (drop_tags false)
             [sample_rejected; sample_accepted] [sample_opportunity]
           = Ok (models2, results)
         ∧ models1 ≡ₚ models2).
Proof.
  split; [apply perm_swap|].
  exact (run_order_of_suggestions "accepted" "rejected" "translate_content"
           (drop_tags false) _ _ [sample_opportunity] (perm_swap _ _ [])).
Defined.

Lemma run_order_of_opportunities_witness :
  [sample_opportunity; sample_other_opportunity]
  ≡ₚ [sample_other_opportunity; sample_opportunity]
  ∧ NoDup (map Opportunity.id [sample_opportunity; sample_other_opportunity])
  ∧ run "accepted" "rejected" "translate_content" (drop_tags false)
      [sample_suggestion] [sample_opportunity; sample_other_opportunity]
    = run "accepted" "rejected" "translate_content" (drop_tags false)
        [sample_suggestion] [sample_other_opportunity; sample_opportunity].
Proof.
  assert (NoDup (map Opportunity.id
                   [sample_opportunity; sample_other_opportunity])) as Hnd.
  { apply NoDup_cons. split.
    - intros Hin. apply list_elem_of_singleton in Hin. discriminate.
    - apply NoDup_singleton. }
  split; [apply perm_swap|]. split; [exact Hnd|].
  exact (run_order_of_opportunities "accepted" "rejected" "translate_content"
           (drop_tags false) [sample_suggestion] _ _ (perm_swap _ _ []) Hnd).
Defined.

Lemma run_completes_iff_witness :
  Forall (λ s, valid_date (datetime.date_part (Suggestion.last_updated s)))
    (filter (λ m, Suggestion.suggestion_type m = "translate_content")
       [sample_question; sample_dotted])
  ∧ ¬ ∃ models results,
        run "accepted" "rejected" "translate_content" (drop_tags false)
          [sample_question; sample_dotted] [sample_opportunity]
        = Ok (models, results).
Proof.
  assert (Forall (λ s, valid_date
                         (datetime.date_part (Suggestion.last_updated s)))
            (filter (λ m, Suggestion.suggestion_type m = "translate_content")
               [sample_question; sample_dotted])) as Hdates
    by (repeat constructor).
  split; [exact Hdates|]. intros Hrun.
  apply (run_completes_iff "accepted" "rejected" "translate_content"
           (drop_tags false) [sample_question; sample_dotted]
           [sample_opportunity] Hdates) in Hrun.
  apply Forall_cons in Hrun as [Hrun _]. discriminate Hrun.
Defined.

(** ** The test runner's checks at sample data *)

Lemma check_shards_reports_duplicate_witness :
  ¬ NoDup (concat (map snd
      [("1", ["core.a_test"; "core.b_test"]); ("2", ["core.a_test"])]))
  ∧ ∃ module,
      _check_shards_match_tests "/oppia/scripts/backend_test_shards.json"
        (λ modules, join ", " (elements modules))
        [("1", ["core.a_test"; "core.b_test"]); ("2", ["core.a_test"])]
        ["core.a_test"; "core.b_test"]
      = Returns (module +:+ " duplicated in "
                 +:+ "/oppia/scripts/backend_test_shards.json")
      ∧ (2 ≤ count module (concat (map snd
           [("1", ["core.a_test"; "core.b_test"]); ("2", ["core.a_test"])])))%nat.
Proof.
  assert (¬ NoDup (concat (map snd
            [("1", ["core.a_test"; "core.b_test"]); ("2", ["core.a_test"])])))
    as Hdup.
  { apply (bool_decide_unpack _). vm_compute. exact I. }
  split; [exact Hdup|].
  exact (check_shards_reports_duplicate _ _ _ _ Hdup).
Defined.

Lemma check_shards_reports_difference_witness :
  NoDup (concat (map snd
    [("1", ["core.a_test"; "core.b_test"]); ("2", ["core.c_test"])]))
  ∧ _check_shards_match_tests "/oppia/scripts/backend_test_shards.json"
      (λ modules, join ", " (elements modules))
      [("1", ["core.a_test"; "core.b_test"]); ("2", ["core.c_test"])]
      ["core.a_test"; "core.b_test"]
    = Returns ("Modules core.c_test in shards not found. See "
               +:+ SHARDS_WIKI_LINK +:+ ".").
Proof.
  assert (NoDup (concat (map snd
            [("1", ["core.a_test"; "core.b_test"]); ("2", ["core.c_test"])])))
    as Hnodup.
  { apply (bool_decide_unpack _). vm_compute. exact I. }
  split; [exact Hnodup|].
  rewrite (proj1 (check_shards_reports_difference
                    "/oppia/scripts/backend_test_shards.json"
                    (λ modules, join ", " (elements modules))
                    _ ["core.a_test"; "core.b_test"] Hnodup)).
  - vm_compute. reflexivity.
  - apply (bool_decide_unpack _). vm_compute. exact I.
Defined.

Lemma load_coverage_exclusion_list_round_trip_witness :
  Forall (λ name,
    name ≠ EmptyString ∧ startswith "#" name = false ∧ strip name = name)
    ["core.jobs.base_jobs"; "scripts.run_backend_tests"]
  ∧ _load_coverage_exclusion_list
      (map (λ name, name +:+ String "010" EmptyString)
         ["core.jobs.base_jobs"; "scripts.run_backend_tests"])
    = ["core.jobs.base_jobs"; "scripts.run_backend_tests"].
Proof.
  assert (Forall (λ name,
            name ≠ EmptyString ∧ startswith "#" name = false
            ∧ strip name = name)
            ["core.jobs.base_jobs"; "scripts.run_backend_tests"]) as Hnames.
  { repeat constructor; discriminate. }
  split; [exact Hnames|].
  exact (load_coverage_exclusion_list_round_trip _ Hnames).
Defined.

(** ** The end-to-end scenarios of the specification *)

(** One accepted proposal of two words with its opportunity. *)
Example scenario_matched_opportunity :
  ∃ m,
    run "accepted" "rejected" "translate_content" (drop_tags false)
      [sample_suggestion] [sample_opportunity]
    = Ok ([m], [JobRunResult.mk "SUCCESS 1" EmptyString])
    ∧ StatsModel.id m = "es.u1.t1"
    ∧ StatsModel.topic_id m = "t1"
    ∧ StatsModel.submitted_translations_count m = 1
    ∧ StatsModel.submitted_translation_word_count m = 2
    ∧ StatsModel.accepted_translations_count m = 1
    ∧ StatsModel.accepted_translations_without_reviewer_edits_count m = 1
    ∧ StatsModel.accepted_translation_word_count m = 2
    ∧ StatsModel.rejected_translations_count m = 0
    ∧ StatsModel.rejected_translation_word_count m = 0
    ∧ elements (StatsModel.contribution_dates m) = [Date 2024 1 5].
Proof. eexists. split; [vm_compute; reflexivity|]. by vm_compute. Qed.

(** The same proposal with no opportunity for its target. *)
Example scenario_unmatched_opportunity :
  ∃ m,
    run "accepted" "rejected" "translate_content" (drop_tags false)
      [sample_suggestion] [sample_other_opportunity]
    = Ok ([m], [JobRunResult.mk "SUCCESS 1" EmptyString])
    ∧ StatsModel.id m = "es.u1."
    ∧ StatsModel.topic_id m = EmptyString
    ∧ StatsModel.submitted_translations_count m = 1
    ∧ StatsModel.submitted_translation_word_count m = 2
    ∧ StatsModel.accepted_translations_count m = 1
    ∧ StatsModel.accepted_translation_word_count m = 2.
Proof. eexists. split; [vm_compute; reflexivity|]. by vm_compute. Qed.

(** Two proposals of one key, one accepted with three words and one
    rejected with five. *)
Example scenario_accepted_and_rejected :
  ∃ m,
    run "accepted" "rejected" "translate_content" (drop_tags false)
      [sample_accepted; sample_question; sample_rejected]
      [sample_opportunity]
    = Ok ([m], [JobRunResult.mk "SUCCESS 1" EmptyString])
    ∧ StatsModel.id m = "es.u1.t1"
    ∧ StatsModel.submitted_translations_count m = 2
    ∧ StatsModel.submitted_translation_word_count m = 8
    ∧ StatsModel.accepted_translations_count m = 1
    ∧ StatsModel.accepted_translations_without_reviewer_edits_count m = 0
    ∧ StatsModel.accepted_translation_word_count m = 3
    ∧ StatsModel.rejected_translations_count m = 1
    ∧ StatsModel.rejected_translation_word_count m = 5
    ∧ size (StatsModel.contribution_dates m) = 2%nat.
Proof. eexists. split; [vm_compute; reflexivity|]. by vm_compute. Qed.
